(** * OctahedronPolygon: a shallow embedding of src/core/OctahedronPolygon.cpp

    The C++ [double] is read as a real number (type [R] of the Standard
    Library): the statements below are about the exact-arithmetic meaning of
    the code, not about rounding.  Comparisons of doubles, which return a C++
    [bool], are the boolean tests [Rleb], [Rltb], [Rgeb] and [Rgtb].
    [Q_ASSERT]s are read as in a release build: they do nothing. *)

From Stdlib Require Import Reals Lra Lia ZArith List Bool String Ascii.
Import ListNotations.

Local Open Scope R_scope.

(** ** Comparisons of doubles as booleans *)

Definition Rleb (a b : R) : bool := if Rle_dec a b then true else false.
Definition Rltb (a b : R) : bool := if Rlt_dec a b then true else false.
Definition Rgeb (a b : R) : bool := Rleb b a.
Definition Rgtb (a b : R) : bool := Rltb b a.

Infix "<=?" := Rleb (at level 70, no associativity) : R_scope.
Infix "<?" := Rltb (at level 70, no associativity) : R_scope.
Infix ">=?" := Rgeb (at level 70, no associativity) : R_scope.
Infix ">?" := Rgtb (at level 70, no associativity) : R_scope.

(** ** Vec3d

    Modelled from the spec: the class [Vec3d] (VecMath.hpp) is not part of
    the sources; the spec describes it as three doubles (x,y,z) with the
    unit-vector operations dot, cross, norm.  In the code [a*b] on two
    vectors is the dot product, [a^b] the cross product, [v*=s] the scaling
    by a double, [v+=w] the component-wise sum, [v[i]] the i-th component and
    [normalize()] the division by the Euclidean norm. *)

Record Vec3d : Type := mkVec3d { vx : R; vy : R; vz : R }.

(** [v[i]]: the sources only use indices 0, 1 and 2 (guarded by [Q_ASSERT]
    in [getSide]); any other index reads as the third component here. *)
Definition vget (v : Vec3d) (i : Z) : R :=
  if (i =? 0)%Z then vx v else if (i =? 1)%Z then vy v else vz v.

(** [v[2] = z] *)
Definition vsetz (v : Vec3d) (z : R) : Vec3d := mkVec3d (vx v) (vy v) z.

Definition dot (a b : Vec3d) : R := vx a * vx b + vy a * vy b + vz a * vz b.

Definition cross (a b : Vec3d) : Vec3d :=
  mkVec3d (vy a * vz b - vz a * vy b)
          (vz a * vx b - vx a * vz b)
          (vx a * vy b - vy a * vx b).

Definition vscale (v : Vec3d) (s : R) : Vec3d :=
  mkVec3d (vx v * s) (vy v * s) (vz v * s).

Definition vadd (a b : Vec3d) : Vec3d :=
  mkVec3d (vx a + vx b) (vy a + vy b) (vz a + vz b).

Definition lengthSquared (v : Vec3d) : R := dot v v.

(** [normalize()]: at the zero vector the code divides by zero and stores
    NaN, while the total division of [R] gives (0,0,0) here; on every other
    vector this is the value of the code, and the statements that rest on the
    value of [normalize] take a vector that is not zero. *)
Definition normalize (v : Vec3d) : Vec3d := vscale v (1 / sqrt (lengthSquared v)).

Definition isUnit (v : Vec3d) : Prop := lengthSquared v = 1.

(** ** The octant table *)

Definition sideDirections : list Vec3d :=
  [ mkVec3d 1 1 1;       mkVec3d 1 1 (-1);
    mkVec3d (-1) 1 1;    mkVec3d (-1) 1 (-1);
    mkVec3d 1 (-1) 1;    mkVec3d 1 (-1) (-1);
    mkVec3d (-1) (-1) 1; mkVec3d (-1) (-1) (-1) ].

Definition sideDirection (i : nat) : Vec3d := nth i sideDirections (mkVec3d 0 0 0).

(** ** Bounding-cap predicates *)

Definition intersectsBoundingCap (n1 : Vec3d) (d1 : R) (n2 : Vec3d) (d2 : R) : bool :=
  let a := d1 * d2 - dot n1 n2 in
  (d1 + d2 <=? 0) || (a <=? 0) || ((a <=? 1) && (a * a <=? (1 - d1 * d1) * (1 - d2 * d2))).

Definition containsBoundingCap (n1 : Vec3d) (d1 : R) (n2 : Vec3d) (d2 : R) : bool :=
  let a := dot n1 n2 - d1 * d2 in
  (d1 <=? d1) && ((a >=? 1) || ((a >=? 0) && (a * a >=? (1 - d1 * d1) * (1 - d2 * d2)))).

(** The cap stored by [computeBoundingCap] for a region without outline. *)
Definition emptyCapN : Vec3d := mkVec3d 1 0 0.
Definition emptyCapD : R := 2.

(** ** Fallible operations

    [first()], [last()] and [at(i)] of a [QVector] are only defined on
    indices that exist; the embedding returns [None] where the C++ code
    would read out of bounds. *)

Definition bind {A B : Type} (o : option A) (k : A -> option B) : option B :=
  match o with
  | Some a => k a
  | None => None
  end.

Notation "x <- e ;; k" := (bind e (fun x => k))
  (at level 61, e at next level, right associativity).

Fixpoint mapM {A B : Type} (f : A -> option B) (l : list A) : option (list B) :=
  match l with
  | [] => Some []
  | a :: l' => b <- f a ;; bs <- mapM f l' ;; Some (b :: bs)
  end.

Fixpoint foldM {A S : Type} (f : S -> A -> option S) (l : list A) (s : S) : option S :=
  match l with
  | [] => Some s
  | a :: l' => s' <- f s a ;; foldM f l' s'
  end.

Definition mapi {A B : Type} (f : nat -> A -> B) (l : list A) : list B :=
  map (fun p => f (fst p) (snd p)) (combine (seq 0 (List.length l)) l).

(** ** EdgeVertex and SubContour *)

Record EdgeVertex : Type := mkEdgeVertex { vertex : Vec3d; edgeFlag : bool }.

Definition SubContour : Type := list EdgeVertex.

Definition firstOpt {A : Type} (l : list A) : option A := hd_error l.

Fixpoint lastOpt {A : Type} (l : list A) : option A :=
  match l with
  | [] => None
  | [a] => Some a
  | _ :: l' => lastOpt l'
  end.

(** [c.first().edgeFlag = b] *)
Definition setFirstEdgeFlag (c : SubContour) (b : bool) : option SubContour :=
  match c with
  | [] => None
  | v :: c' => Some (mkEdgeVertex (vertex v) b :: c')
  end.

(** [c.last().edgeFlag = b] *)
Definition setLastEdgeFlag (c : SubContour) (b : bool) : option SubContour :=
  l <- lastOpt c ;; Some (removelast c ++ [mkEdgeVertex (vertex l) b]).

(** [SubContour::SubContour(vertices, closed)] *)
Definition newSubContour (vertices : list Vec3d) (closed : bool) : option SubContour :=
  let this := map (fun v => mkEdgeVertex v true) vertices in
  if closed then Some this
  else this1 <- setFirstEdgeFlag this false ;; setLastEdgeFlag this1 false.

(** [SubContour::reversed()] *)
Definition reversed (c : SubContour) : SubContour := rev c.

(** ** getSide *)

Definition getSide (v : Vec3d) (onLine : Z) : Z :=
  if vget v onLine >=? 0 then 0%Z else 1%Z.

(** ** SubContour::toJSON *)

(** [s[i] = c] on a [QString] *)
Fixpoint setCharAt (s : string) (i : nat) (c : ascii) : string :=
  match s, i with
  | EmptyString, _ => EmptyString
  | String _ s', O => String c s'
  | String a s', S i' => String a (setCharAt s' i' c)
  end.

Section JSON.

(** Modelled from the spec: [StelUtils::rectToSphe] (right ascension and
    declination of a direction, in radians) and [QString::number(x,'g',12)]
    (a double printed with 12 significant digits) are not part of the
    sources; both are left abstract. *)
Variable rectToSphe : Vec3d -> R * R.
Variable number : R -> string.

(** The text appended to [res] by one iteration of the [foreach]. *)
Definition vertexJSON (v : EdgeVertex) : string :=
  let (ra, dec) := rectToSphe (vertex v) in
  ("[" ++ number (ra * 180 / PI) ++ "," ++ number (dec * 180 / PI) ++ ","
       ++ (if edgeFlag v then "true" else "false") ++ "],")%string.

(** [res] after the [foreach]. *)
Definition toJSONLoop (this : SubContour) : string :=
  fold_left (fun res v => (res ++ vertexJSON v)%string) this "["%string.

Definition toJSON (this : SubContour) : string :=
  let res := toJSONLoop this in
  setCharAt res (String.length res - 1) "]"%char.

End JSON.

(** ** splitContourByPlan *)

(** The local variables of [splitContourByPlan] that live across the loops,
    with the two output lists [result[0]] and [result[1]]. *)
Record SplitState : Type := mkSplitState {
  currentSubContour : SubContour;
  unfinishedSubContour : SubContour;
  previousQuadrant : Z;
  currentQuadrant : Z;
  previousVertex : EdgeVertex;
  result : list SubContour * list SubContour }.

(** [result[q] << c]; [q] is a value of [getSide], 0 or 1. *)
Definition pushResult (q : Z) (c : SubContour)
    (res : list SubContour * list SubContour) : list SubContour * list SubContour :=
  if (q =? 0)%Z then (fst res ++ [c], snd res) else (fst res, snd res ++ [c]).

Definition planOf (onLine : Z) : Vec3d :=
  mkVec3d (if (onLine =? 0)%Z then 1 else 0)
          (if (onLine =? 1)%Z then 1 else 0)
          (if (onLine =? 2)%Z then 1 else 0).

Section Split.

(** Modelled from the spec: [greatCircleIntersection(p1, p2, nHalfSpace, ok)]
    (StelSphereGeometry) is not part of the sources.  It returns the point
    where the arc from [p1] to [p2] meets the plane of normal [nHalfSpace],
    and sets [ok] to false when the endpoints do not define such a point.
    The pair is (returned vector, ok). *)
Variable greatCircleIntersection : Vec3d -> Vec3d -> Vec3d -> Vec3d * bool.

(** First loop, "Take care first of the unfinished contour".  [todo] is
    [inputContour] from index [i] on; the function returns the state and
    what is left from index [i] when the loop stops (the [break] leaves
    [i] on the vertex that crossed). *)
Fixpoint splitFirstLoop (onLine : Z) (todo : list EdgeVertex) (s : SplitState)
    : SplitState * list EdgeVertex :=
  match todo with
  | [] => (s, [])
  | currentVertex :: todo' =>
      let cq := getSide (vertex currentVertex) onLine in
      if (cq =? previousQuadrant s)%Z then
        splitFirstLoop onLine todo'
          (mkSplitState (currentSubContour s)
                        (unfinishedSubContour s ++ [currentVertex])
                        (previousQuadrant s) cq currentVertex (result s))
      else
        let (tmpVertex, ok) :=
          greatCircleIntersection (vertex (previousVertex s)) (vertex currentVertex)
                                  (planOf onLine) in
        if negb ok then
          (mkSplitState (currentSubContour s) (unfinishedSubContour s)
                        cq cq (previousVertex s) (result s), todo)
        else
          (mkSplitState (currentSubContour s ++ [mkEdgeVertex tmpVertex false])
                        (unfinishedSubContour s ++ [mkEdgeVertex tmpVertex false])
                        cq cq (previousVertex s) (result s), todo)
  end.

(** Second loop, "Now handle the other ones". *)
Fixpoint splitSecondLoop (onLine : Z) (todo : list EdgeVertex) (s : SplitState)
    : option SplitState :=
  match todo with
  | [] => Some s
  | currentVertex :: todo' =>
      let cq := getSide (vertex currentVertex) onLine in
      if (cq =? previousQuadrant s)%Z then
        splitSecondLoop onLine todo'
          (mkSplitState (currentSubContour s ++ [currentVertex])
                        (unfinishedSubContour s)
                        (previousQuadrant s) cq currentVertex (result s))
      else
        let (tmpVertex, ok) :=
          greatCircleIntersection (vertex (previousVertex s)) (vertex currentVertex)
                                  (planOf onLine) in
        if negb ok then
          closed <- setLastEdgeFlag (currentSubContour s) false ;;
          splitSecondLoop onLine todo'
            (mkSplitState [mkEdgeVertex (vertex currentVertex) false]
                          (unfinishedSubContour s)
                          cq cq currentVertex
                          (pushResult (previousQuadrant s) closed (result s)))
        else
          splitSecondLoop onLine todo'
            (mkSplitState [mkEdgeVertex tmpVertex false; currentVertex]
                          (unfinishedSubContour s)
                          cq cq currentVertex
                          (pushResult (previousQuadrant s)
                             (currentSubContour s ++ [mkEdgeVertex tmpVertex false])
                             (result s)))
  end.

(** "Handle the last line between the last and first point", then append
    the last contour.  Returns the two output lists. *)
Definition splitClose (onLine : Z) (first : EdgeVertex) (s : SplitState)
    : option (list SubContour * list SubContour) :=
  let previousQuadrant := currentQuadrant s in
  let currentQuadrant := getSide (vertex first) onLine in
  s' <-
    (if (currentQuadrant =? previousQuadrant)%Z then
       Some (currentSubContour s, result s)
     else
       let (tmpVertex, ok) :=
         greatCircleIntersection (vertex (previousVertex s)) (vertex first)
                                 (planOf onLine) in
       if negb ok then
         closed <- setLastEdgeFlag (currentSubContour s) false ;;
         Some ([], pushResult previousQuadrant closed (result s))
       else
         Some ([mkEdgeVertex tmpVertex false],
               pushResult previousQuadrant
                 (currentSubContour s ++ [mkEdgeVertex tmpVertex false]) (result s))) ;;
  Some (pushResult currentQuadrant (fst s' ++ unfinishedSubContour s) (snd s')).

(** [splitContourByPlan(onLine, inputContour, result)]: the lists of
    [result] are extended in place; the function fails only where the code
    reads [first()] or [last()] of an empty vector. *)
Definition splitContourByPlan (onLine : Z) (inputContour : SubContour)
    (result : list SubContour * list SubContour)
    : option (list SubContour * list SubContour) :=
  first <- firstOpt inputContour ;;
  let s0 := mkSplitState [] [] (getSide (vertex first) onLine) 0%Z first result in
  let (s1, todo) := splitFirstLoop onLine inputContour s0 in
  s2 <- splitSecondLoop onLine todo s1 ;;
  splitClose onLine first s2.

(** ** appendSubContour: the octahedral decomposition *)

(** The body of the loop "complete the contours which cross the areas from
    one side to another by adding poles", for one sub-contour. *)
Definition completeWithPole (tmpSubContour : SubContour) : option SubContour :=
  l <- lastOpt tmpSubContour ;;
  if edgeFlag l then Some tmpSubContour
  else
    f <- firstOpt tmpSubContour ;;
    let v := cross (vertex f) (vertex l) in
    if vget v 2 >? 0.00000001 then
      Some (tmpSubContour ++ [mkEdgeVertex (mkVec3d 0 0 (-1)) false])
    else if vget v 2 <? - 0.0000001 then
      Some (tmpSubContour ++ [mkEdgeVertex (mkVec3d 0 0 1) false])
    else Some tmpSubContour.

(** [foreach (subContour, l) splitContourByPlan(onLine, subContour, result)] *)
Definition splitAll (onLine : Z) (l : list SubContour)
    (result : list SubContour * list SubContour)
    : option (list SubContour * list SubContour) :=
  foldM (fun res sub => splitContourByPlan onLine sub res) l result.

(** The body of the loop [for (c=0;c<4;++c)]: pole completion of
    [splittedVertices2[c]], then the split on the plane Z=0 into
    [resultSides[2c]] and [resultSides[2c+1]]. *)
Definition splitQuadrant (quadrant : list SubContour)
    : option (list SubContour * list SubContour) :=
  completed <- mapM completeWithPole quadrant ;;
  splitAll 2 completed ([], []).

End Split.

(** [v->vertex *= 1./(sideDirections[i]*v->vertex); v->vertex[2]=0.] *)
Definition projectVertex (n : Vec3d) (v : Vec3d) : Vec3d :=
  vsetz (vscale v (1 / dot n v)) 0.

Definition projectOnOctahedron (inSides : list (list SubContour)) : list (list SubContour) :=
  mapi (fun i subs =>
          map (map (fun v => mkEdgeVertex (projectVertex (sideDirection i) (vertex v))
                                         (edgeFlag v))) subs)
       inSides.

Definition unprojectOctahedron (v : Vec3d) (sideDirection : Vec3d) : Vec3d :=
  normalize (vsetz v ((1 - dot sideDirection v) / vget sideDirection 2)).

(** [for (i=0;i<8;++i) sides[i] += other[i]]; both vectors have size 8
    ([Q_ASSERT]), a missing entry reads as the empty list. *)
Definition appendSides (sides other : list (list SubContour)) : list (list SubContour) :=
  map (fun i => nth i sides [] ++ nth i other []) (seq 0 8).

(** ** The planar tessellator (GLUES)

    Modelled from the spec: the tessellator (glues.h) is an external black
    box.  Following the spec's design notes it is read as a function from
    the contours it is fed to a stream of events, each of which runs one of
    the callbacks registered by the code.  Pointers to vertex payloads are
    [TessRef]s: a vertex of the input ([contours[c][i]]) or the vertex
    stored by the k-th call of the combine callback ([tempVertices[k]]).
    The [weight] array of the combine callback is read by no callback and
    is left out; the error callback only logs. *)

Inductive TessWindingRule : Type := WindingPositive | WindingAbsGeqTwo.

Inductive TessRef : Type :=
  | InputVertex (c i : nat)
  | CombinedVertex (k : nat).

Inductive TessEvent : Type :=
  | TessVertex (vertexData : TessRef)
  | TessCombine (coords : Vec3d) (vertex_data : list (option TessRef))
  | TessEnd.

(** A possibly null pointer, dereferenced: [Some None] is NULL, [None] a
    pointer to nothing. *)
Definition derefOpt {A : Type} (deref : TessRef -> option A) (p : option TessRef)
    : option (option A) :=
  match p with
  | None => Some None
  | Some r => v <- deref r ;; Some (Some v)
  end.

Module LineLoop.

Record OctTessLineLoopCallbackData : Type := mkData {
  result : SubContour;
  resultList : list SubContour;
  tempVertices : list EdgeVertex }.

Definition vertexLineLoopCallback (vertexData : EdgeVertex)
    (userData : OctTessLineLoopCallbackData) : OctTessLineLoopCallbackData :=
  mkData (result userData ++ [vertexData]) (resultList userData) (tempVertices userData).

(** The loop [for (i=0;i<4;++i)] of the combine callback, from index [i]
    on: it stops at the first NULL entry. *)
Fixpoint combineFlag (vertex_data : list (option EdgeVertex)) (newFlag : bool) : bool :=
  match vertex_data with
  | [] => newFlag
  | None :: _ => newFlag
  | Some v :: rest => combineFlag rest (newFlag || edgeFlag v)
  end.

(** Returns the vertex stored behind [*outData] and the new user data. *)
Definition combineLineLoopCallback (coords : Vec3d) (vertex_data : list (option EdgeVertex))
    (userData : OctTessLineLoopCallbackData) : EdgeVertex * OctTessLineLoopCallbackData :=
  let newFlag := combineFlag (firstn 4 vertex_data) false in
  let v := mkEdgeVertex coords newFlag in
  (v, mkData (result userData) (resultList userData) (tempVertices userData ++ [v])).

Definition endLineLoopCallback (data : OctTessLineLoopCallbackData)
    : OctTessLineLoopCallbackData :=
  mkData [] (resultList data ++ [result data]) (tempVertices data).

Definition deref (contours : list SubContour) (data : OctTessLineLoopCallbackData)
    (r : TessRef) : option EdgeVertex :=
  match r with
  | InputVertex c i => sub <- nth_error contours c ;; nth_error sub i
  | CombinedVertex k => nth_error (tempVertices data) k
  end.

Definition callback (contours : list SubContour) (data : OctTessLineLoopCallbackData)
    (e : TessEvent) : option OctTessLineLoopCallbackData :=
  match e with
  | TessVertex r => v <- deref contours data r ;; Some (vertexLineLoopCallback v data)
  | TessCombine coords ptrs =>
      vertex_data <- mapM (derefOpt (deref contours data)) ptrs ;;
      Some (snd (combineLineLoopCallback coords vertex_data data))
  | TessEnd => Some (endLineLoopCallback data)
  end.

End LineLoop.

Module Triangles.

Record OctTessTrianglesCallbackData : Type := mkData {
  result : list Vec3d;
  tempVertices : list Vec3d }.

Definition vertexTrianglesCallback (vertexData : Vec3d)
    (userData : OctTessTrianglesCallbackData) : OctTessTrianglesCallbackData :=
  mkData (result userData ++ [vertexData]) (tempVertices userData).

Definition combineTrianglesCallback (coords : Vec3d)
    (userData : OctTessTrianglesCallbackData) : Vec3d * OctTessTrianglesCallbackData :=
  (coords, mkData (result userData) (tempVertices userData ++ [coords])).

Definition deref (contours : list SubContour) (data : OctTessTrianglesCallbackData)
    (r : TessRef) : option Vec3d :=
  match r with
  | InputVertex c i => sub <- nth_error contours c ;; v <- nth_error sub i ;; Some (vertex v)
  | CombinedVertex k => nth_error (tempVertices data) k
  end.

(** No end callback is registered in triangle mode. *)
Definition callback (contours : list SubContour) (data : OctTessTrianglesCallbackData)
    (e : TessEvent) : option OctTessTrianglesCallbackData :=
  match e with
  | TessVertex r => v <- deref contours data r ;; Some (vertexTrianglesCallback v data)
  | TessCombine coords ptrs =>
      _ <- mapM (derefOpt (deref contours data)) ptrs ;;
      Some (snd (combineTrianglesCallback coords data))
  | TessEnd => Some data
  end.

End Triangles.

(** ** OctahedronPolygon *)

Record OctahedronPolygon : Type := mkOctahedronPolygon {
  sides : list (list SubContour);
  fillCachedVertexArray : list Vec3d;
  outlineCachedVertexArray : list Vec3d;
  capN : Vec3d;
  capD : R }.

Definition isEmptyList {A : Type} (l : list A) : bool :=
  match l with [] => true | _ => false end.

(** [l[i] = x] *)
Fixpoint setNth {A : Type} (i : nat) (x : A) (l : list A) : list A :=
  match l, i with
  | [], _ => []
  | _ :: l', O => x :: l'
  | a :: l', S i' => a :: setNth i' x l'
  end.

(** Over the reals the three determinants below are one and the same
    number; in doubles each is rounded on its own, so that on a triangle
    whose area is within rounding of zero the code can answer otherwise than
    this exact reading. *)
Definition isTriangleConvexPositive2D (a b c : Vec3d) : bool :=
  ((vget b 0 - vget a 0) * (vget c 1 - vget a 1)
     - (vget b 1 - vget a 1) * (vget c 0 - vget a 0) >=? 0)
  && ((vget c 0 - vget b 0) * (vget a 1 - vget b 1)
     - (vget c 1 - vget b 1) * (vget a 0 - vget b 0) >=? 0)
  && ((vget a 0 - vget c 0) * (vget b 1 - vget c 1)
     - (vget a 1 - vget c 1) * (vget b 0 - vget c 0) >=? 0).

Definition triangleContains2D (a b c p : Vec3d) : bool :=
  ((vget b 0 - vget a 0) * (vget p 1 - vget a 1)
     - (vget b 1 - vget a 1) * (vget p 0 - vget a 0) >=? 0)
  && ((vget c 0 - vget b 0) * (vget p 1 - vget b 1)
     - (vget c 1 - vget b 1) * (vget p 0 - vget b 0) >=? 0)
  && ((vget a 0 - vget c 0) * (vget p 1 - vget c 1)
     - (vget a 1 - vget c 1) * (vget p 0 - vget c 0) >=? 0).

(** The loop [for (j=0;j<=res.size()-3;j+=3)] of [updateVertexArray]. *)
Fixpoint appendPositiveTriangles (sidenb : nat) (sideDirection : Vec3d)
    (res : list Vec3d) (fill : list Vec3d) : list Vec3d :=
  match res with
  | a :: b :: c :: res' =>
      if (if Nat.even sidenb then isTriangleConvexPositive2D c b a
          else isTriangleConvexPositive2D a b c)
      then appendPositiveTriangles sidenb sideDirection res'
             (fill ++ [unprojectOctahedron a sideDirection;
                       unprojectOctahedron b sideDirection;
                       unprojectOctahedron c sideDirection])
      else appendPositiveTriangles sidenb sideDirection res' fill
  | _ => fill
  end.

(** The loop [for (j=0;j<c.size()-1;++j)] over [c.at(j+1)]. *)
Fixpoint outlineLoop (sideDirection : Vec3d) (previous : EdgeVertex)
    (rest : list EdgeVertex) (outline : list Vec3d) : EdgeVertex * list Vec3d :=
  match rest with
  | [] => (previous, outline)
  | next :: rest' =>
      let previous' :=
        mkEdgeVertex (unprojectOctahedron (vertex next) sideDirection) (edgeFlag next) in
      if edgeFlag previous || edgeFlag next then
        outlineLoop sideDirection previous' rest'
                    (outline ++ [vertex previous; vertex previous'])
      else outlineLoop sideDirection previous' rest' outline
  end.

(** The body of [foreach (const SubContour& c, sides[sidenb])]. *)
Definition outlineOfContour (sideDirection : Vec3d) (outline : list Vec3d) (c : SubContour)
    : option (list Vec3d) :=
  first <- firstOpt c ;;
  let previous :=
    mkEdgeVertex (unprojectOctahedron (vertex first) sideDirection) (edgeFlag first) in
  let (previous, outline) := outlineLoop sideDirection previous (tl c) outline in
  if edgeFlag previous || edgeFlag first then
    Some (outline ++ [vertex previous; unprojectOctahedron (vertex first) sideDirection])
  else Some outline.

(** [computeBoundingCap]: the pair (capN, capD) for the outline vertices.
    When the vertices sum to the zero vector the code normalizes the zero
    vector (see [normalize]); the statements about the cap take a sum that is
    not zero. *)
Definition computeBoundingCap (trianglesArray : list Vec3d) : Vec3d * R :=
  if isEmptyList trianglesArray then (mkVec3d 1 0 0, 2)
  else
    let capN := normalize (fold_left vadd trianglesArray (mkVec3d 0 0 0)) in
    let capD :=
      fold_left (fun capD v => if dot capN v <? capD then dot capN v else capD)
                trianglesArray 1 in
    (capN, capD * (if capD >? 0 then 0.9999999 else 1.0000001)).

(** [getPointInside] *)
Definition getPointInside (this : OctahedronPolygon) : option Vec3d :=
  let trianglesArray := fillCachedVertexArray this in
  res <- nth_error trianglesArray 0 ;;
  t1 <- nth_error trianglesArray 1 ;;
  t2 <- nth_error trianglesArray 2 ;;
  Some (normalize (vadd (vadd res t1) t2)).

Definition isEmpty (this : OctahedronPolygon) : bool :=
  forallb (fun i => isEmptyList (nth i (sides this) [])) (seq 0 8).

(** [append] and [appendReversed] *)
Definition append (this other : OctahedronPolygon) : OctahedronPolygon :=
  mkOctahedronPolygon (appendSides (sides this) (sides other))
    (fillCachedVertexArray this) (outlineCachedVertexArray this) (capN this) (capD this).

Definition appendReversed (this other : OctahedronPolygon) : OctahedronPolygon :=
  mkOctahedronPolygon
    (map (fun i => nth i (sides this) [] ++ map reversed (nth i (sides other) [])) (seq 0 8))
    (fillCachedVertexArray this) (outlineCachedVertexArray this) (capN this) (capD this).

Section Polygon.

Variable greatCircleIntersection : Vec3d -> Vec3d -> Vec3d -> Vec3d * bool.

(** Modelled from the spec: one run of the tessellator, from
    [gluesTessBeginPolygon] to [gluesTessEndPolygon].  Arguments: the
    property GLUES_TESS_BOUNDARY_ONLY, the winding rule, the z component
    of the normal given to [gluesTessNormal], and the coordinates of the
    contours fed by [gluesTessVertex]. *)
Variable glues : bool -> TessWindingRule -> R -> list (list Vec3d) -> list TessEvent.

Definition tessNormal (sidenb : nat) : R := if Nat.even sidenb then -1 else 1.

Definition tesselateOneSideLineLoop (windingRule : TessWindingRule)
    (this : list (list SubContour)) (sidenb : nat) : option (list SubContour) :=
  let contours := nth sidenb this [] in
  data <- foldM (LineLoop.callback contours)
                (glues true windingRule (tessNormal sidenb) (map (map vertex) contours))
                (LineLoop.mkData [] [] []) ;;
  Some (LineLoop.resultList data).

Definition tesselateOneSideTriangles (this : list (list SubContour)) (sidenb : nat)
    : option (list Vec3d) :=
  let contours := nth sidenb this [] in
  data <- foldM (Triangles.callback contours)
                (glues false WindingPositive (tessNormal sidenb) (map (map vertex) contours))
                (Triangles.mkData [] []) ;;
  Some (Triangles.result data).

(** [tesselate(windingRule)] *)
Definition tesselate (windingRule : TessWindingRule) (this : OctahedronPolygon)
    : option OctahedronPolygon :=
  sides' <- foldM (fun sides i =>
                     if isEmptyList (nth i sides []) then Some sides
                     else r <- tesselateOneSideLineLoop windingRule sides i ;;
                          Some (setNth i r sides))
                  (seq 0 8) (sides this) ;;
  Some (mkOctahedronPolygon sides' (fillCachedVertexArray this)
          (outlineCachedVertexArray this) (capN this) (capD this)).

(** One iteration of the loop over [sidenb] in [updateVertexArray], on the
    pair (fill vertices, outline vertices). *)
Definition updateOneSide (this : list (list SubContour))
    (caches : list Vec3d * list Vec3d) (sidenb : nat) : option (list Vec3d * list Vec3d) :=
  if isEmptyList (nth sidenb this []) then Some caches
  else
    let sideDirection := sideDirection sidenb in
    res <- tesselateOneSideTriangles this sidenb ;;
    let fill := appendPositiveTriangles sidenb sideDirection res (fst caches) in
    outline <- foldM (outlineOfContour sideDirection) (nth sidenb this []) (snd caches) ;;
    Some (fill, outline).

(** [updateVertexArray] *)
Definition updateVertexArray (this : OctahedronPolygon) : option OctahedronPolygon :=
  caches <- foldM (updateOneSide (sides this)) (seq 0 8) ([], []) ;;
  let cap := computeBoundingCap (snd caches) in
  Some (mkOctahedronPolygon (sides this) (fst caches) (snd caches) (fst cap) (snd cap)).

(** [appendSubContour] *)
Definition appendSubContour (this : OctahedronPolygon) (inContour : SubContour)
    : option OctahedronPolygon :=
  splittedContour1 <- splitContourByPlan greatCircleIntersection 1 inContour ([], []) ;;
  q01 <- splitAll greatCircleIntersection 0 (fst splittedContour1) ([], []) ;;
  q23 <- splitAll greatCircleIntersection 0 (snd splittedContour1) ([], []) ;;
  r0 <- splitQuadrant greatCircleIntersection (fst q01) ;;
  r1 <- splitQuadrant greatCircleIntersection (snd q01) ;;
  r2 <- splitQuadrant greatCircleIntersection (fst q23) ;;
  r3 <- splitQuadrant greatCircleIntersection (snd q23) ;;
  let resultSides :=
    [fst r0; snd r0; fst r1; snd r1; fst r2; snd r2; fst r3; snd r3] in
  Some (mkOctahedronPolygon
          (appendSides (sides this) (projectOnOctahedron resultSides))
          (fillCachedVertexArray this) (outlineCachedVertexArray this)
          (capN this) (capD this)).

(** [OctahedronPolygon(const SubContour& initContour)] *)
Definition newOctahedronPolygon (initContour : SubContour) : option OctahedronPolygon :=
  let this := mkOctahedronPolygon (repeat [] 8) [] [] (mkVec3d 0 0 0) 0 in
  this1 <- appendSubContour this initContour ;;
  this2 <- tesselate WindingPositive this1 ;;
  updateVertexArray this2.

(** ** Boolean operations *)

Definition inPlaceIntersection (this mpoly : OctahedronPolygon) : option OctahedronPolygon :=
  if negb (intersectsBoundingCap (capN this) (capD this) (capN mpoly) (capD mpoly))
  then Some this
  else
    this1 <- tesselate WindingAbsGeqTwo (append this mpoly) ;;
    updateVertexArray this1.

Definition inPlaceUnion (this mpoly : OctahedronPolygon) : option OctahedronPolygon :=
  let intersect :=
    intersectsBoundingCap (capN this) (capD this) (capN mpoly) (capD mpoly) in
  let this1 := append this mpoly in
  this2 <- (if intersect then tesselate WindingPositive this1 else Some this1) ;;
  updateVertexArray this2.

Definition inPlaceSubtraction (this mpoly : OctahedronPolygon) : option OctahedronPolygon :=
  if negb (intersectsBoundingCap (capN this) (capD this) (capN mpoly) (capD mpoly))
  then Some this
  else
    this1 <- tesselate WindingPositive (appendReversed this mpoly) ;;
    updateVertexArray this1.

(** [intersects(const OctahedronPolygon&)] *)
Definition intersects (this mpoly : OctahedronPolygon) : option bool :=
  if negb (intersectsBoundingCap (capN this) (capD this) (capN mpoly) (capD mpoly))
  then Some false
  else resOct <- inPlaceIntersection this mpoly ;; Some (negb (isEmpty resOct)).

End Polygon.

(** ** Predicates used to state the properties of the splitter *)

Section SplitSpec.

Variable greatCircleIntersection : Vec3d -> Vec3d -> Vec3d -> Vec3d * bool.
Variable onLine : Z.
Variable inputContour : SubContour.

(** [v] is an intersection vertex made at a crossing of the plane: the
    point returned, with ok = true, for two vertices of the input lying on
    different sides; and it carries edgeFlag = false. *)
Definition isCutVertex (v : EdgeVertex) : Prop :=
  edgeFlag v = false /\
  exists p q : EdgeVertex,
    In p inputContour /\ In q inputContour /\
    getSide (vertex p) onLine <> getSide (vertex q) onLine /\
    greatCircleIntersection (vertex p) (vertex q) (planOf onLine) = (vertex v, true).

(** [v] is a vertex of the input (its edge flag kept or cleared) lying on
    the side [side] of the plane. *)
Definition isKeptVertex (side : Z) (v : EdgeVertex) : Prop :=
  getSide (vertex v) onLine = side /\
  exists v0 : EdgeVertex,
    In v0 inputContour /\ vertex v = vertex v0 /\
    (edgeFlag v = edgeFlag v0 \/ edgeFlag v = false).

Definition splitVertexOk (side : Z) (v : EdgeVertex) : Prop :=
  isKeptVertex side v \/ isCutVertex v.

Definition splitResultOk (res : list SubContour * list SubContour) : Prop :=
  Forall (Forall (splitVertexOk 0)) (fst res) /\
  Forall (Forall (splitVertexOk 1)) (snd res).

(** After an iteration both quadrant variables hold the side of
    [previousVertex]. *)
Definition settled (s : SplitState) : Prop :=
  currentQuadrant s = previousQuadrant s /\
  getSide (vertex (previousVertex s)) onLine = previousQuadrant s.

(** What the second loop may assume of the vertex it starts on. *)
Definition secondLoopPre (todo : list EdgeVertex) (s : SplitState) : Prop :=
  match todo with
  | [] => settled s
  | currentVertex :: _ =>
      getSide (vertex currentVertex) onLine = previousQuadrant s \/ settled s
  end.

End SplitSpec.

(** The position [p] is that of a vertex of one of the contours of [res]. *)
Definition placed (p : Vec3d) (res : list SubContour * list SubContour) : Prop :=
  exists c, (In c (fst res) \/ In c (snd res)) /\ In p (map vertex c).

(** The position [p] is in the output or in one of the two accumulators. *)
Definition held (p : Vec3d) (s : SplitState) : Prop :=
  In p (map vertex (currentSubContour s)) \/
  In p (map vertex (unfinishedSubContour s)) \/
  placed p (result s).

(** No contour of [res] is empty. *)
Definition nonEmptyResult (res : list SubContour * list SubContour) : Prop :=
  Forall (fun c : SubContour => c <> []) (fst res) /\
  Forall (fun c : SubContour => c <> []) (snd res).

(** ** Sample data used by the examples *)

(** An intersection routine that always answers the north pole, and one
    that always fails. *)
Definition gciPole : Vec3d -> Vec3d -> Vec3d -> Vec3d * bool :=
  fun _ _ _ => (mkVec3d 0 0 1, true).

Definition gciFail : Vec3d -> Vec3d -> Vec3d -> Vec3d * bool :=
  fun p1 _ _ => (p1, false).

(** A closed contour crossing the plane X=0. *)
Definition contourAcrossX : SubContour :=
  [ mkEdgeVertex (mkVec3d 1 0 0) true;
    mkEdgeVertex (mkVec3d 0 1 0) true;
    mkEdgeVertex (mkVec3d (-1) 0 0) true ].

(** A closed contour whose first two vertices are antipodal and lie on
    both sides of the plane Y=0. *)
Definition contourAntipodal : SubContour :=
  [ mkEdgeVertex (mkVec3d 0 1 0) true;
    mkEdgeVertex (mkVec3d 0 (-1) 0) true;
    mkEdgeVertex (mkVec3d 0.6 (-0.8) 0) true ].

(** ** Reading the array of the combine callback *)

(** The entries that come before the first NULL. *)
Fixpoint presentPrefix {A : Type} (vertex_data : list (option A)) : list A :=
  match vertex_data with
  | Some v :: rest => v :: presentPrefix rest
  | _ => []
  end.

(** All the entries that are not NULL. *)
Fixpoint present {A : Type} (vertex_data : list (option A)) : list A :=
  match vertex_data with
  | [] => []
  | Some v :: rest => v :: present rest
  | None :: rest => present rest
  end.

(** No entry follows a NULL one. *)
Fixpoint nullsTrail {A : Type} (vertex_data : list (option A)) : bool :=
  match vertex_data with
  | [] => true
  | Some _ :: rest => nullsTrail rest
  | None :: rest => isEmptyList (present rest)
  end.

(** ** More sample data *)

(** Two regions whose bounding caps are disjoint, around (1,0,0) and
    (-1,0,0), each with one contour on one face. *)
Definition polyEast : OctahedronPolygon :=
  mkOctahedronPolygon
    ([ [ mkEdgeVertex (mkVec3d 0.8 0.1 0) true;
         mkEdgeVertex (mkVec3d 0.9 0 0) true;
         mkEdgeVertex (mkVec3d 0.9 0.1 0) true ] ] :: repeat [] 7)
    [] [] (mkVec3d 1 0 0) 0.9.

Definition polyWest : OctahedronPolygon :=
  mkOctahedronPolygon
    ([] :: [] ::
     [ [ mkEdgeVertex (mkVec3d (-0.8) 0.1 0) true;
         mkEdgeVertex (mkVec3d (-0.9) 0 0) true;
         mkEdgeVertex (mkVec3d (-0.9) 0.1 0) true ] ] :: repeat [] 5)
    [] [] (mkVec3d (-1) 0 0) 0.9.

(** A tessellator that emits nothing. *)
Definition gluesSilent : bool -> TessWindingRule -> R -> list (list Vec3d) -> list TessEvent :=
  fun _ _ _ _ => [].

(** A sub-contour cut open between (0,1,0) and (1,0,0). *)
Definition contourOpenEnd : SubContour :=
  [ mkEdgeVertex (mkVec3d 1 0 0) true; mkEdgeVertex (mkVec3d 0 1 0) false ].
(** ** Sample data and predicates for the further properties *)

(** A region with no contour. *)
Definition polyNone : OctahedronPolygon :=
  mkOctahedronPolygon (repeat [] 8) [] [] (mkVec3d 1 0 0) 2.

(** A tessellator that answers one loop: the first two vertices of the
    first contour and a vertex it makes by combining them. *)
Definition gluesMerge : bool -> TessWindingRule -> R -> list (list Vec3d) -> list TessEvent :=
  fun _ _ _ _ =>
    [ TessVertex (InputVertex 0 0);
      TessVertex (InputVertex 0 1);
      TessCombine (mkVec3d 0.85 0.05 0)
                  [Some (InputVertex 0 0); Some (InputVertex 0 1); None; None];
      TessVertex (CombinedVertex 0);
      TessEnd ].

(** Faces whose only contour, on face 0, has no edge flag. *)
Definition sidesNoFlag : list (list SubContour) :=
  [ [ mkEdgeVertex (mkVec3d 0.8 0.1 0) false;
      mkEdgeVertex (mkVec3d 0.9 0 0) false;
      mkEdgeVertex (mkVec3d 0.9 0.1 0) false ] ] :: repeat [] 7.

(** No vertex held by the callback data has an edge flag. *)
Definition noFlag (data : LineLoop.OctTessLineLoopCallbackData) : Prop :=
  (forall v, In v (LineLoop.result data) -> edgeFlag v = false) /\
  (forall c v, In c (LineLoop.resultList data) -> In v c -> edgeFlag v = false) /\
  (forall v, In v (LineLoop.tempVertices data) -> edgeFlag v = false).

(** The state every constructor and every mutation leaves: eight faces, and
    the cap computed from the outline cache. *)
Definition capConsistent (this : OctahedronPolygon) : Prop :=
  List.length (sides this) = 8%nat /\
  (capN this, capD this) = computeBoundingCap (outlineCachedVertexArray this).

(** ** Predicates on the contents of the caches *)

(** [p] is the unprojection of a vertex of a contour of one of the faces. *)
Definition fromContour (faces : list (list SubContour)) (p : Vec3d) : Prop :=
  exists i c v,
    (i < 8)%nat /\ In c (nth i faces []) /\ In v c /\
    p = unprojectOctahedron (vertex v) (sideDirection i).

(** [p] is the unprojection of a vertex of a triangle that the tessellator
    returned for one of the faces. *)
Definition fromTriangle
    (glues : bool -> TessWindingRule -> R -> list (list Vec3d) -> list TessEvent)
    (faces : list (list SubContour)) (p : Vec3d) : Prop :=
  exists i res q,
    (i < 8)%nat /\ tesselateOneSideTriangles glues faces i = Some res /\ In q res /\
    p = unprojectOctahedron q (sideDirection i).

(** Every vertex of face [i] that has its edge flag is in the outline. *)
Definition flaggedIn (faces : list (list SubContour)) (i : nat)
    (caches : list Vec3d * list Vec3d) : Prop :=
  forall c v, In c (nth i faces []) -> In v c -> edgeFlag v = true ->
              In (unprojectOctahedron (vertex v) (sideDirection i)) (snd caches).

(** A sub-contour of the quadrant x <= 0, y >= 0 that was cut open: it
    starts 0.00000004 away from the plane X=0 and ends on it, at a vertex
    with edgeFlag = false, so that first x last has z = -0.00000004 (up to
    1e-22). *)
Definition contourNearPlane : SubContour :=
  [ mkEdgeVertex (mkVec3d (- (2 * 0.00000002) / (1 + 0.00000002 * 0.00000002))
                          ((1 - 0.00000002 * 0.00000002) / (1 + 0.00000002 * 0.00000002))
                          0) true;
    mkEdgeVertex (mkVec3d (-0.6) 0 0.8) true;
    mkEdgeVertex (mkVec3d (-0.6) 0.8 0) true;
    mkEdgeVertex (mkVec3d 0 1 0) false ].

(** A closed contour of unit vectors in the half-space y >= 0 whose first two
    vertices lie 0.00000002 and 0.00000004 away from the plane X=0, on both
    sides of it; its last edge, on the equator, meets that plane at
    (0,1,0). *)
Definition contourBesidePlane : SubContour :=
  [ mkEdgeVertex (mkVec3d ((2 * 0.00000001) / (1 + 0.00000001 * 0.00000001))
                          ((1 - 0.00000001 * 0.00000001) / (1 + 0.00000001 * 0.00000001))
                          0) true;
    mkEdgeVertex (mkVec3d (- (2 * 0.00000002) / (1 + 0.00000002 * 0.00000002))
                          ((1 - 0.00000002 * 0.00000002) / (1 + 0.00000002 * 0.00000002))
                          0) true;
    mkEdgeVertex (mkVec3d (-0.6) 0 0.8) true;
    mkEdgeVertex (mkVec3d (-0.6) 0.8 0) true ].

(** ** Reflection of the boolean comparisons *)

Lemma Rleb_true (a b : R) : (a <=? b) = true <-> a <= b.
Proof. unfold Rleb. destruct (Rle_dec a b); split; intros; try easy. Qed.

Lemma Rleb_false (a b : R) : (a <=? b) = false <-> b < a.
Proof. unfold Rleb. destruct (Rle_dec a b); split; intros; try easy; lra. Qed.

Lemma Rltb_true (a b : R) : (a <? b) = true <-> a < b.
Proof. unfold Rltb. destruct (Rlt_dec a b); split; intros; try easy. Qed.

Lemma Rltb_false (a b : R) : (a <? b) = false <-> b <= a.
Proof. unfold Rltb. destruct (Rlt_dec a b); split; intros; try easy; lra. Qed.

Lemma Rgeb_true (a b : R) : (a >=? b) = true <-> a >= b.
Proof. unfold Rgeb. rewrite Rleb_true. lra. Qed.

Lemma Rgeb_false (a b : R) : (a >=? b) = false <-> a < b.
Proof. unfold Rgeb. rewrite Rleb_false. lra. Qed.

Lemma Rgtb_true (a b : R) : (a >? b) = true <-> a > b.
Proof. unfold Rgtb. rewrite Rltb_true. lra. Qed.

Lemma Rgtb_false (a b : R) : (a >? b) = false <-> a <= b.
Proof. unfold Rgtb. rewrite Rltb_false. lra. Qed.

(** [rbool] rewrites every boolean comparison of the goal and of the
    hypotheses into the order relation it decides. *)
Ltac rbool :=
  repeat match goal with
  | H : _ |- _ =>
      first [ rewrite Rleb_true in H | rewrite Rleb_false in H
            | rewrite Rltb_true in H | rewrite Rltb_false in H
            | rewrite Rgeb_true in H | rewrite Rgeb_false in H
            | rewrite Rgtb_true in H | rewrite Rgtb_false in H
            | rewrite orb_true_iff in H | rewrite andb_true_iff in H
            | rewrite orb_false_iff in H | rewrite andb_false_iff in H ]
  | |- _ =>
      first [ rewrite Rleb_true | rewrite Rleb_false
            | rewrite Rltb_true | rewrite Rltb_false
            | rewrite Rgeb_true | rewrite Rgeb_false
            | rewrite Rgtb_true | rewrite Rgtb_false
            | rewrite orb_true_iff | rewrite andb_true_iff
            | rewrite orb_false_iff | rewrite andb_false_iff ]
  end.

(** C1: containsBoundingCap returns true exactly when [a >= 1], or [a >= 0]
    and [a*a >= (1-d1*d1)*(1-d2*d2)], with [a = n1.n2 - d1*d2]; the guard
    [d1<=d1] of the code is always true.  The statement holds for all
    vectors, unit or not. *)
Theorem containsBoundingCap_formula (n1 : Vec3d) (d1 : R) (n2 : Vec3d) (d2 : R) :
  let a := dot n1 n2 - d1 * d2 in
  containsBoundingCap n1 d1 n2 d2 = true <->
  (a >= 1 \/ (a >= 0 /\ a * a >= (1 - d1 * d1) * (1 - d2 * d2))).
Proof.
  intro a. unfold containsBoundingCap. fold a.
  rbool. split.
  - intros [_ H]. exact H.
  - intros H. split; [lra | exact H].
Qed.

(** ** The empty-cap sentinel *)

Lemma sentinel_dot (n2 : Vec3d) : dot emptyCapN n2 = vx n2.
Proof. unfold dot, emptyCapN; simpl. lra. Qed.

Lemma sentinel_intersects_true_iff (n2 : Vec3d) (d2 : R) :
  -1 <= d2 <= 1 ->
  intersectsBoundingCap emptyCapN emptyCapD n2 d2 = true <-> 2 * d2 <= vx n2.
Proof.
  intros Hd. unfold intersectsBoundingCap. rewrite sentinel_dot. unfold emptyCapD.
  rbool. split.
  - intros [[H | H] | [H1 H2]]; try lra.
    pose proof (Rle_0_sqr (2 * d2 - vx n2)) as Hsq. unfold Rsqr in Hsq.
    assert (Hp : 0 <= (1 - d2) * (1 + d2)) by (apply Rmult_le_pos; lra).
    assert (H0 : (2 * d2 - vx n2) * (2 * d2 - vx n2) = 0) by lra.
    destruct (Rmult_integral _ _ H0); lra.
  - intros H. left. right. lra.
Qed.

Lemma sentinel_contains_true_iff (n2 : Vec3d) (d2 : R) :
  -1 <= d2 <= 1 ->
  containsBoundingCap emptyCapN emptyCapD n2 d2 = true <-> 2 * d2 <= vx n2.
Proof.
  intros Hd. unfold containsBoundingCap. rewrite sentinel_dot. unfold emptyCapD.
  rbool. split.
  - intros [_ [H | [H _]]]; lra.
  - intros H. split; [lra|]. right. split; [lra|].
    pose proof (Rle_0_sqr (vx n2 - 2 * d2)) as Hsq. unfold Rsqr in Hsq.
    assert (Hp : 0 <= (1 - d2) * (1 + d2)) by (apply Rmult_le_pos; lra).
    lra.
Qed.

Lemma isUnit_vx_le_1 (v : Vec3d) : isUnit v -> vx v <= 1.
Proof.
  unfold isUnit, lengthSquared, dot. intros H.
  pose proof (Rle_0_sqr (vy v)) as Hy. pose proof (Rle_0_sqr (vz v)) as Hz.
  pose proof (Rle_0_sqr (vx v - 1)) as Hx. unfold Rsqr in *. lra.
Qed.

Lemma bool_false_iff_not_true (b : bool) (P : Prop) :
  (b = true <-> P) -> (b = false <-> ~ P).
Proof. destruct b; intuition congruence. Qed.

(** C2 (as amended): against the empty-cap sentinel ((1,0,0), 2), a cap
    (n2, d2) with d2 in [-1,1] compares as not intersecting exactly when
    n2.x < 2*d2, and as not contained exactly when n2.x < 2*d2; both hold
    for every unit n2 when d2 > 1/2. *)
Theorem empty_cap_sentinel_false_iff (n2 : Vec3d) (d2 : R) :
  -1 <= d2 <= 1 ->
  (intersectsBoundingCap emptyCapN emptyCapD n2 d2 = false <-> vx n2 < 2 * d2) /\
  (containsBoundingCap emptyCapN emptyCapD n2 d2 = false <-> vx n2 < 2 * d2) /\
  (isUnit n2 -> 1 / 2 < d2 ->
   intersectsBoundingCap emptyCapN emptyCapD n2 d2 = false /\
   containsBoundingCap emptyCapN emptyCapD n2 d2 = false).
Proof.
  intros Hd.
  pose proof (bool_false_iff_not_true _ _ (sentinel_intersects_true_iff n2 d2 Hd)) as Hi.
  pose proof (bool_false_iff_not_true _ _ (sentinel_contains_true_iff n2 d2 Hd)) as Hc.
  split; [|split].
  - rewrite Hi. lra.
  - rewrite Hc. lra.
  - intros Hu Hd2. pose proof (isUnit_vx_le_1 n2 Hu).
    split; [apply Hi | apply Hc]; lra.
Qed.

Lemma empty_cap_sentinel_false_iff_witness :
  -1 <= 1 <= 1 /\
  intersectsBoundingCap emptyCapN emptyCapD (mkVec3d 0 0 1) 1 = false /\
  containsBoundingCap emptyCapN emptyCapD (mkVec3d 0 0 1) 1 = false.
Proof.
  assert (H : -1 <= 1 <= 1) by lra.
  split; [exact H|].
  destruct (empty_cap_sentinel_false_iff (mkVec3d 0 0 1) 1 H) as ([_ Hi] & [_ Hc] & _).
  split; [apply Hi | apply Hc]; simpl; lra.
Defined.

(** C2 (as stated) fails: the hemisphere around (1,0,0), that is the cap
    n2 = (1,0,0), d2 = 0, compares as intersecting the sentinel and as
    contained in it. *)
Lemma empty_cap_sentinel_counterexample :
  ~ (forall (n2 : Vec3d) (d2 : R),
        isUnit n2 -> -1 <= d2 <= 1 ->
        intersectsBoundingCap emptyCapN emptyCapD n2 d2 = false /\
        containsBoundingCap emptyCapN emptyCapD n2 d2 = false).
Proof.
  intros H.
  assert (Hu : isUnit (mkVec3d 1 0 0)) by (unfold isUnit, lengthSquared, dot; simpl; lra).
  assert (Hd : -1 <= 0 <= 1) by lra.
  destruct (H (mkVec3d 1 0 0) 0 Hu Hd) as [Hi _].
  assert (Ht : intersectsBoundingCap emptyCapN emptyCapD (mkVec3d 1 0 0) 0 = true).
  { apply sentinel_intersects_true_iff; simpl; lra. }
  congruence.
Qed.

(** ** Projection on a face and back *)

Lemma lengthSquared_vscale (v : Vec3d) (s : R) :
  lengthSquared (vscale v s) = s * s * lengthSquared v.
Proof. unfold lengthSquared, dot, vscale; simpl. ring. Qed.

Lemma normalize_vscale_unit (v : Vec3d) (s : R) :
  isUnit v -> 0 < s -> normalize (vscale v (1 / s)) = v.
Proof.
  intros Hu Hs. unfold normalize.
  rewrite lengthSquared_vscale, Hu, Rmult_1_r.
  assert (Hinv : 0 < 1 / s) by (apply Rdiv_lt_0_compat; lra).
  rewrite sqrt_square by lra.
  destruct v as [x y z]. unfold vscale; simpl.
  f_equal; field; lra.
Qed.

Lemma unproject_project_scaled (n v : Vec3d) :
  vz n <> 0 -> dot n v <> 0 ->
  vsetz (projectVertex n v) ((1 - dot n (projectVertex n v)) / vget n 2)
  = vscale v (1 / dot n v).
Proof.
  intros Hnz Hs.
  destruct v as [x y z], n as [nx ny nz].
  unfold projectVertex, vsetz, vscale, vget, dot in *; simpl in *.
  f_equal. field. split; assumption.
Qed.

Lemma unproject_project (n v : Vec3d) :
  vz n <> 0 -> isUnit v -> dot n v > 0 ->
  unprojectOctahedron (projectVertex n v) n = v.
Proof.
  intros Hnz Hu Hs. unfold unprojectOctahedron.
  rewrite unproject_project_scaled by lra.
  apply normalize_vscale_unit; [assumption | lra].
Qed.

Lemma sideDirection_vz (i : nat) : (i < 8)%nat -> vz (sideDirection i) <> 0.
Proof.
  intros Hi. unfold sideDirection, sideDirections.
  do 8 (destruct i as [|i]; [simpl; lra|]). lia.
Qed.

(** C6: for every octant i and every unit vector v with
    sideDirections[i].v > 0, projecting v on the face of the octant and
    unprojecting with the same side direction gives v back. *)
Theorem unprojectOctahedron_projectVertex (i : nat) (v : Vec3d) :
  (i < 8)%nat -> isUnit v -> dot (sideDirection i) v > 0 ->
  unprojectOctahedron (projectVertex (sideDirection i) v) (sideDirection i) = v.
Proof.
  intros Hi Hu Hs. apply unproject_project; auto using sideDirection_vz.
Qed.

Lemma unprojectOctahedron_projectVertex_witness :
  unprojectOctahedron (projectVertex (sideDirection 3) (mkVec3d 0 1 0)) (sideDirection 3)
  = mkVec3d 0 1 0.
Proof.
  apply (unprojectOctahedron_projectVertex 3 (mkVec3d 0 1 0)).
  - lia.
  - unfold isUnit, lengthSquared, dot; simpl; lra.
  - unfold sideDirection, dot; simpl; lra.
Defined.

(** ** The plane splitter *)

Lemma getSide_nonneg (v : Vec3d) (onLine : Z) :
  getSide v onLine = 0%Z <-> vget v onLine >= 0.
Proof.
  unfold getSide. destruct (vget v onLine >=? 0) eqn:E; rbool; split; intros; try lra; easy.
Qed.

Lemma getSide_neg (v : Vec3d) (onLine : Z) :
  getSide v onLine = 1%Z <-> vget v onLine < 0.
Proof.
  unfold getSide. destruct (vget v onLine >=? 0) eqn:E; rbool; split; intros; try lra; easy.
Qed.

Lemma getSide_cases (v : Vec3d) (onLine : Z) :
  getSide v onLine = 0%Z \/ getSide v onLine = 1%Z.
Proof. unfold getSide. destruct (vget v onLine >=? 0); auto. Qed.

Lemma lastOpt_app {A : Type} (l : list A) (a : A) : lastOpt (l ++ [a]) = Some a.
Proof.
  induction l as [|b l IH]; simpl; [reflexivity|].
  destruct (l ++ [a]) eqn:E; [destruct l; discriminate | exact IH].
Qed.

Lemma lastOpt_In {A : Type} (l : list A) (a : A) : lastOpt l = Some a -> In a l.
Proof.
  induction l as [|b l IH]; simpl; [discriminate|].
  destruct l as [|c l]; [intros [= ->]; auto | intros H; right; auto].
Qed.

Lemma lastOpt_Some {A : Type} (l : list A) : l <> [] -> exists a, lastOpt l = Some a.
Proof.
  induction l as [|b l IH]; [congruence|]. intros _.
  destruct l as [|c l]; [eexists; reflexivity | apply IH; discriminate].
Qed.

Lemma In_removelast {A : Type} (l : list A) (a : A) : In a (removelast l) -> In a l.
Proof.
  induction l as [|b l IH]; simpl; [tauto|].
  destruct l as [|c l]; [simpl; tauto|]. intros [H | H]; [left; exact H | right; auto].
Qed.

Section SplitProofs.

Variable greatCircleIntersection : Vec3d -> Vec3d -> Vec3d -> Vec3d * bool.
Variable onLine : Z.
Variable inputContour : SubContour.

Local Abbreviation vertexOk := (splitVertexOk greatCircleIntersection onLine inputContour).
Local Abbreviation resultOk := (splitResultOk greatCircleIntersection onLine inputContour).
Local Abbreviation side v := (getSide (vertex v) onLine).

Lemma kept_vertexOk (v : EdgeVertex) : In v inputContour -> vertexOk (side v) v.
Proof. intros H. left. split; [reflexivity|]. exists v. auto. Qed.

Lemma cleared_vertexOk (q : Z) (v : EdgeVertex) :
  vertexOk q v -> vertexOk q (mkEdgeVertex (vertex v) false).
Proof.
  intros [[Hs (v0 & Hin & Hv & _)] | [_ Hc]].
  - left. split; [exact Hs|]. exists v0. simpl. auto.
  - right. split; [reflexivity | exact Hc].
Qed.

Lemma cut_vertexOk (q : Z) (p c : EdgeVertex) (t : Vec3d) :
  In p inputContour -> In c inputContour -> side p <> side c ->
  greatCircleIntersection (vertex p) (vertex c) (planOf onLine) = (t, true) ->
  vertexOk q (mkEdgeVertex t false).
Proof.
  intros Hp Hc Hs Hg. right. split; [reflexivity|]. exists p, c. simpl. auto.
Qed.

Lemma setLastEdgeFlag_vertexOk (q : Z) (c c' : SubContour) :
  Forall (vertexOk q) c -> setLastEdgeFlag c false = Some c' -> Forall (vertexOk q) c'.
Proof.
  unfold setLastEdgeFlag. intros H. destruct (lastOpt c) as [l|] eqn:E; simpl; [|discriminate].
  intros [= <-]. rewrite Forall_forall in *. intros x Hx.
  apply in_app_or in Hx. destruct Hx as [Hx | [<- | []]].
  - apply H. apply In_removelast. exact Hx.
  - apply cleared_vertexOk. apply H. apply lastOpt_In. exact E.
Qed.

Lemma pushResult_resultOk (q : Z) (c : SubContour) res :
  q = 0%Z \/ q = 1%Z -> Forall (vertexOk q) c -> resultOk res ->
  resultOk (pushResult q c res).
Proof.
  intros Hq Hc [H0 H1]. unfold pushResult, splitResultOk.
  destruct Hq as [-> | ->]; simpl; split; auto; apply Forall_app; auto.
Qed.

Variable first : EdgeVertex.
Hypothesis first_in : In first inputContour.

Lemma splitFirstLoop_inv (todo : list EdgeVertex) :
  forall s s' todo',
    incl todo inputContour ->
    In (previousVertex s) inputContour ->
    settled onLine s ->
    previousQuadrant s = side first ->
    currentSubContour s = [] ->
    Forall (vertexOk (side first)) (unfinishedSubContour s) ->
    splitFirstLoop greatCircleIntersection onLine todo s = (s', todo') ->
    incl todo' inputContour /\
    In (previousVertex s') inputContour /\
    secondLoopPre onLine todo' s' /\
    Forall (vertexOk (previousQuadrant s')) (currentSubContour s') /\
    Forall (vertexOk (side first)) (unfinishedSubContour s') /\
    result s' = result s.
Proof.
  induction todo as [|cv todo IH]; intros s s' todo' Hincl Hpv Hset Hq Hcur Hunf; simpl.
  - intros [= <- <-]. rewrite Hcur. repeat split; auto; apply Hset.
  - assert (Hcv : In cv inputContour) by (apply Hincl; left; reflexivity).
    destruct (Z.eqb_spec (side cv) (previousQuadrant s)) as [E | E].
    + intros H. apply IH in H; simpl; auto.
      * intros x Hx. apply Hincl. right. exact Hx.
      * split; simpl; auto.
      * apply Forall_app. split; [exact Hunf|]. constructor; [|constructor].
        rewrite <- Hq, <- E. apply kept_vertexOk. exact Hcv.
    + destruct Hset as [_ Hside].
      destruct (greatCircleIntersection _ _ _) as [t ok] eqn:G.
      destruct ok; simpl; intros [= <- <-]; simpl.
      * repeat split; auto.
        -- rewrite Hcur. constructor; [|constructor].
           apply (cut_vertexOk _ (previousVertex s) cv); auto. congruence.
        -- apply Forall_app. split; [exact Hunf|]. constructor; [|constructor].
           apply (cut_vertexOk _ (previousVertex s) cv); auto. congruence.
      * repeat split; auto. rewrite Hcur. constructor.
Qed.

Lemma splitSecondLoop_inv (todo : list EdgeVertex) :
  forall s s',
    incl todo inputContour ->
    In (previousVertex s) inputContour ->
    secondLoopPre onLine todo s ->
    Forall (vertexOk (previousQuadrant s)) (currentSubContour s) ->
    resultOk (result s) ->
    splitSecondLoop greatCircleIntersection onLine todo s = Some s' ->
    In (previousVertex s') inputContour /\
    settled onLine s' /\
    Forall (vertexOk (previousQuadrant s')) (currentSubContour s') /\
    resultOk (result s') /\
    unfinishedSubContour s' = unfinishedSubContour s.
Proof.
  induction todo as [|cv todo IH]; intros s s' Hincl Hpv Hpre Hcur Hres; simpl.
  - intros [= <-]. auto.
  - assert (Hcv : In cv inputContour) by (apply Hincl; left; reflexivity).
    assert (Hincl' : incl todo inputContour) by (intros x Hx; apply Hincl; right; exact Hx).
    assert (Hnext : forall s1, previousVertex s1 = cv -> previousQuadrant s1 = side cv ->
                      currentQuadrant s1 = side cv -> secondLoopPre onLine todo s1).
    { intros s1 H1 H2 H3. unfold secondLoopPre, settled. rewrite H1, H2, H3.
      destruct todo; auto. }
    destruct (Z.eqb_spec (side cv) (previousQuadrant s)) as [E | E].
    + intros H. apply IH in H; simpl; auto.
      apply Forall_app. split; [exact Hcur|]. constructor; [|constructor].
      rewrite <- E. apply kept_vertexOk. exact Hcv.
    + simpl in Hpre. destruct Hpre as [Hpre | [_ Hside]]; [congruence|].
      assert (Hq : previousQuadrant s = 0%Z \/ previousQuadrant s = 1%Z)
        by (rewrite <- Hside; apply getSide_cases).
      destruct (greatCircleIntersection _ _ _) as [t ok] eqn:G.
      destruct ok; simpl.
      * intros H. apply IH in H; simpl; auto.
        -- constructor; [|constructor; [|constructor]].
           ++ apply (cut_vertexOk _ (previousVertex s) cv); auto. congruence.
           ++ apply kept_vertexOk. exact Hcv.
        -- apply pushResult_resultOk; auto.
           apply Forall_app. split; [exact Hcur|]. constructor; [|constructor].
           apply (cut_vertexOk _ (previousVertex s) cv); auto. congruence.
      * destruct (setLastEdgeFlag (currentSubContour s) false) as [closed|] eqn:L;
          simpl; [|discriminate].
        intros H. apply IH in H; simpl; auto.
        -- constructor; [|constructor].
           apply (cleared_vertexOk _ cv). apply kept_vertexOk. exact Hcv.
        -- apply pushResult_resultOk; auto.
           apply (setLastEdgeFlag_vertexOk _ _ _ Hcur L).
Qed.

Lemma splitClose_inv (s : SplitState) res :
  In (previousVertex s) inputContour ->
  settled onLine s ->
  Forall (vertexOk (previousQuadrant s)) (currentSubContour s) ->
  Forall (vertexOk (side first)) (unfinishedSubContour s) ->
  resultOk (result s) ->
  splitClose greatCircleIntersection onLine first s = Some res ->
  resultOk res.
Proof.
  intros Hpv [Hcq Hside] Hcur Hunf Hres. unfold splitClose.
  assert (Hq : currentQuadrant s = 0%Z \/ currentQuadrant s = 1%Z)
    by (rewrite Hcq, <- Hside; apply getSide_cases).
  pose proof (getSide_cases (vertex first) onLine) as Hf.
  rewrite <- Hcq in Hcur.
  destruct (Z.eqb_spec (side first) (currentQuadrant s)) as [E | E]; simpl.
  - intros [= <-]. apply pushResult_resultOk; auto.
    apply Forall_app. split; [rewrite E; exact Hcur | exact Hunf].
  - destruct (greatCircleIntersection _ _ _) as [t ok] eqn:G.
    destruct ok; simpl.
    + intros [= <-]. apply pushResult_resultOk; auto.
      * constructor; [|exact Hunf].
        apply (cut_vertexOk _ (previousVertex s) first); auto. congruence.
      * apply pushResult_resultOk; auto.
        apply Forall_app. split; [exact Hcur|]. constructor; [|constructor].
        apply (cut_vertexOk _ (previousVertex s) first); auto. congruence.
    + destruct (setLastEdgeFlag (currentSubContour s) false) as [closed|] eqn:L;
        simpl; [|discriminate].
      intros [= <-]. apply pushResult_resultOk; auto.
      apply pushResult_resultOk; auto.
      apply (setLastEdgeFlag_vertexOk _ _ _ Hcur L).
Qed.

End SplitProofs.

Lemma splitContourByPlan_resultOk gci (onLine : Z) (inputContour : SubContour) res0 res :
  splitResultOk gci onLine inputContour res0 ->
  splitContourByPlan gci onLine inputContour res0 = Some res ->
  splitResultOk gci onLine inputContour res.
Proof.
  intros Hres0. unfold splitContourByPlan.
  destruct inputContour as [|first rest] eqn:Ein; simpl; [discriminate|].
  rewrite Z.eqb_refl. rewrite <- Ein in *.
  assert (Hfirst : In first inputContour) by (rewrite Ein; left; reflexivity).
  destruct (splitFirstLoop gci onLine rest _) as [s1 todo] eqn:L1.
  destruct (splitSecondLoop gci onLine todo s1) as [s2|] eqn:L2; simpl; [|discriminate].
  intros Hclose.
  eapply splitFirstLoop_inv with (first := first) (inputContour := inputContour) in L1;
    simpl; auto.
  - destruct L1 as (Hincl & Hpv & Hpre & Hcur & Hunf & Hr).
    eapply splitSecondLoop_inv with (inputContour := inputContour) in L2; eauto.
    + destruct L2 as (Hpv2 & Hset2 & Hcur2 & Hres2 & Hunf2).
      eapply splitClose_inv with (first := first) (s := s2); eauto.
      rewrite Hunf2. exact Hunf.
    + rewrite Hr. exact Hres0.
  - intros x Hx. rewrite Ein. right. exact Hx.
  - split; reflexivity.
  - constructor; [|constructor]. apply kept_vertexOk. exact Hfirst.
Qed.

(** *** The splitter returns on every non-empty contour *)

Lemma setLastEdgeFlag_Some (c : SubContour) (b : bool) :
  c <> [] -> exists c', setLastEdgeFlag c b = Some c'.
Proof.
  intros H. unfold setLastEdgeFlag.
  destruct (lastOpt_Some c H) as [l ->]. simpl. eexists; reflexivity.
Qed.

Section SplitTotal.

Variable greatCircleIntersection : Vec3d -> Vec3d -> Vec3d -> Vec3d * bool.
Variable onLine : Z.
Variable first : EdgeVertex.

Local Abbreviation side v := (getSide (vertex v) onLine).

Lemma splitFirstLoop_stop (todo : list EdgeVertex) :
  forall s s' todo',
    previousQuadrant s = side first ->
    currentQuadrant s = side first ->
    splitFirstLoop greatCircleIntersection onLine todo s = (s', todo') ->
    (todo' = [] /\ currentQuadrant s' = side first) \/
    (exists cv rest, todo' = cv :: rest /\ side cv = previousQuadrant s').
Proof.
  induction todo as [|cv todo IH]; intros s s' todo' Hp Hc; simpl.
  - intros [= <- <-]. left. auto.
  - destruct (Z.eqb_spec (side cv) (previousQuadrant s)) as [E | E].
    + intros H. apply IH in H; simpl; auto. congruence.
    + destruct (greatCircleIntersection _ _ _) as [t ok].
      destruct ok; simpl; intros [= <- <-]; right; exists cv, todo; auto.
Qed.

Lemma splitSecondLoop_total (todo : list EdgeVertex) :
  forall s,
    match todo with
    | [] => True
    | cv :: _ => side cv = previousQuadrant s \/ currentSubContour s <> []
    end ->
    exists s', splitSecondLoop greatCircleIntersection onLine todo s = Some s' /\
               (todo <> [] -> currentSubContour s' <> []) /\
               (todo = [] -> s' = s).
Proof.
  induction todo as [|cv todo IH]; intros s Hpre; simpl.
  - exists s. repeat split; congruence.
  - assert (Hstep : forall s1, currentSubContour s1 <> [] ->
              exists s', splitSecondLoop greatCircleIntersection onLine todo s1 = Some s' /\
                         (cv :: todo <> [] -> currentSubContour s' <> []) /\
                         (cv :: todo = [] -> s' = s)).
    { intros s1 Hne. destruct (IH s1) as (s' & Hs' & Hne' & Heq).
      - destruct todo; auto.
      - exists s'. split; [exact Hs'|]. split; [|discriminate].
        intros _. destruct todo; [rewrite Heq by reflexivity; exact Hne | apply Hne'; discriminate]. }
    destruct (Z.eqb_spec (side cv) (previousQuadrant s)) as [E | E].
    + apply Hstep. simpl. destruct (currentSubContour s); discriminate.
    + destruct Hpre as [Hpre | Hne]; [congruence|].
      destruct (greatCircleIntersection _ _ _) as [t ok].
      destruct ok; simpl.
      * apply Hstep. simpl. discriminate.
      * destruct (setLastEdgeFlag_Some _ false Hne) as [closed ->]. simpl.
        apply Hstep. simpl. discriminate.
Qed.

Lemma splitClose_total (s : SplitState) :
  currentSubContour s <> [] \/ currentQuadrant s = side first ->
  exists res, splitClose greatCircleIntersection onLine first s = Some res.
Proof.
  intros H. unfold splitClose.
  destruct (Z.eqb_spec (side first) (currentQuadrant s)) as [E | E]; simpl.
  - eexists; reflexivity.
  - destruct H as [Hne | H]; [|congruence].
    destruct (greatCircleIntersection _ _ _) as [t ok].
    destruct ok; simpl.
    + eexists; reflexivity.
    + destruct (setLastEdgeFlag_Some _ false Hne) as [closed ->]. simpl.
      eexists; reflexivity.
Qed.

End SplitTotal.

(** On a non-empty contour no [first()] or [last()] of the splitter reads
    an empty vector: the function returns. *)
Lemma splitContourByPlan_total gci (onLine : Z) (inputContour : SubContour) res0 :
  inputContour <> [] ->
  exists res, splitContourByPlan gci onLine inputContour res0 = Some res.
Proof.
  intros Hne. unfold splitContourByPlan.
  destruct inputContour as [|first rest]; [congruence|]. simpl.
  rewrite Z.eqb_refl.
  destruct (splitFirstLoop gci onLine rest _) as [s1 todo] eqn:L1.
  apply splitFirstLoop_stop with (first := first) in L1; simpl; auto.
  destruct L1 as [[-> Hc] | (cv & rest' & -> & Hs)].
  - simpl. apply splitClose_total. right. exact Hc.
  - destruct (splitSecondLoop_total gci onLine (cv :: rest') s1) as (s2 & -> & Hne2 & _).
    + left. exact Hs.
    + simpl. apply splitClose_total. left. apply Hne2. discriminate.
Qed.


(** *** No vertex of the input is lost *)

Lemma removelast_lastOpt {A : Type} (l : list A) (a : A) :
  lastOpt l = Some a -> l = removelast l ++ [a].
Proof.
  induction l as [|b l IH]; [discriminate|].
  destruct l as [|c l]; [intros [= ->]; reflexivity|].
  intros H. change (b :: c :: l = b :: (removelast (c :: l) ++ [a])).
  f_equal. apply IH. exact H.
Qed.

Lemma setLastEdgeFlag_positions (c c' : SubContour) (b : bool) :
  setLastEdgeFlag c b = Some c' -> map vertex c' = map vertex c.
Proof.
  unfold setLastEdgeFlag. destruct (lastOpt c) as [l|] eqn:E; simpl; [|discriminate].
  intros [= <-]. rewrite (removelast_lastOpt c l E) at 2.
  rewrite !map_app. reflexivity.
Qed.

Section SplitKeeps.

Variable greatCircleIntersection : Vec3d -> Vec3d -> Vec3d -> Vec3d * bool.
Variable onLine : Z.

Lemma placed_pushResult_old (p : Vec3d) (q : Z) (c : SubContour) res :
  placed p res -> placed p (pushResult q c res).
Proof.
  intros (c0 & Hc0 & Hp). exists c0. split; [|exact Hp].
  unfold pushResult. destruct (q =? 0)%Z; simpl;
    destruct Hc0 as [H | H]; auto using in_or_app.
Qed.

Lemma placed_pushResult_new (p : Vec3d) (q : Z) (c : SubContour) res :
  In p (map vertex c) -> placed p (pushResult q c res).
Proof.
  intros Hp. exists c. split; [|exact Hp].
  unfold pushResult. destruct (q =? 0)%Z; simpl; [left | right];
    apply in_or_app; right; left; reflexivity.
Qed.

Lemma splitFirstLoop_keeps (todo : list EdgeVertex) :
  forall s s' todo',
    splitFirstLoop greatCircleIntersection onLine todo s = (s', todo') ->
    forall p, held p s \/ In p (map vertex todo) ->
              held p s' \/ In p (map vertex todo').
Proof.
  induction todo as [|cv todo IH]; intros s s' todo'; simpl.
  - intros [= <- <-] p H. exact H.
  - destruct (getSide (vertex cv) onLine =? previousQuadrant s)%Z.
    + intros H p Hp. apply (IH _ _ _ H). unfold held in *. simpl.
      rewrite map_app, in_app_iff. simpl. tauto.
    + destruct (greatCircleIntersection _ _ _) as [t ok].
      destruct ok; simpl; intros [= <- <-] p Hp; unfold held in *; simpl in *;
        rewrite ?map_app, ?in_app_iff; tauto.
Qed.

Lemma splitSecondLoop_keeps (todo : list EdgeVertex) :
  forall s s',
    splitSecondLoop greatCircleIntersection onLine todo s = Some s' ->
    forall p, held p s \/ In p (map vertex todo) -> held p s'.
Proof.
  induction todo as [|cv todo IH]; intros s s'; simpl.
  - intros [= <-] p [H | []]. exact H.
  - destruct (getSide (vertex cv) onLine =? previousQuadrant s)%Z.
    + intros H p Hp. apply (IH _ _ H). unfold held in *. simpl.
      rewrite map_app, in_app_iff. simpl. tauto.
    + destruct (greatCircleIntersection _ _ _) as [t ok].
      destruct ok; simpl.
      * intros H p Hp. apply (IH _ _ H). unfold held in *. simpl.
        destruct Hp as [[Hp | [Hp | Hp]] | [Hp | Hp]]; auto.
        -- left. right. right. apply placed_pushResult_new.
           rewrite map_app. apply in_or_app. left. exact Hp.
        -- left. right. right. apply placed_pushResult_old. exact Hp.
      * destruct (setLastEdgeFlag (currentSubContour s) false) as [closed|] eqn:L;
          simpl; [|discriminate].
        intros H p Hp. apply (IH _ _ H). unfold held in *. simpl.
        destruct Hp as [[Hp | [Hp | Hp]] | [Hp | Hp]]; auto.
        -- left. right. right. apply placed_pushResult_new.
           rewrite (setLastEdgeFlag_positions _ _ _ L). exact Hp.
        -- left. right. right. apply placed_pushResult_old. exact Hp.
Qed.

Lemma splitClose_keeps (first : EdgeVertex) (s : SplitState) res :
  splitClose greatCircleIntersection onLine first s = Some res ->
  forall p, held p s -> placed p res.
Proof.
  unfold splitClose.
  destruct (getSide (vertex first) onLine =? currentQuadrant s)%Z; simpl.
  - intros [= <-] p [Hp | [Hp | Hp]].
    + apply placed_pushResult_new. rewrite map_app. apply in_or_app. auto.
    + apply placed_pushResult_new. rewrite map_app. apply in_or_app. auto.
    + apply placed_pushResult_old. exact Hp.
  - destruct (greatCircleIntersection _ _ _) as [t ok].
    destruct ok; simpl.
    + intros [= <-] p [Hp | [Hp | Hp]].
      * apply placed_pushResult_old, placed_pushResult_new.
        rewrite map_app. apply in_or_app. auto.
      * apply placed_pushResult_new. simpl. auto.
      * apply placed_pushResult_old, placed_pushResult_old. exact Hp.
    + destruct (setLastEdgeFlag (currentSubContour s) false) as [closed|] eqn:L;
        simpl; [|discriminate].
      intros [= <-] p [Hp | [Hp | Hp]].
      * apply placed_pushResult_old, placed_pushResult_new.
        rewrite (setLastEdgeFlag_positions _ _ _ L). exact Hp.
      * apply placed_pushResult_new. exact Hp.
      * apply placed_pushResult_old, placed_pushResult_old. exact Hp.
Qed.

End SplitKeeps.

Lemma splitContourByPlan_keeps gci (onLine : Z) (inputContour : SubContour) res0 res :
  splitContourByPlan gci onLine inputContour res0 = Some res ->
  forall v0, In v0 inputContour -> placed (vertex v0) res.
Proof.
  unfold splitContourByPlan.
  destruct (firstOpt inputContour) as [first|]; simpl; [|discriminate].
  destruct (splitFirstLoop gci onLine inputContour _) as [s1 todo] eqn:L1.
  destruct (splitSecondLoop gci onLine todo s1) as [s2|] eqn:L2; simpl; [|discriminate].
  intros Hclose v0 Hv0.
  apply (splitClose_keeps _ _ _ _ _ Hclose).
  apply (splitSecondLoop_keeps _ _ _ _ _ L2).
  apply (splitFirstLoop_keeps _ _ _ _ _ _ L1).
  right. apply in_map. exact Hv0.
Qed.

(** *** No contour of the output is empty, and the decomposition returns *)

Lemma app_cons_nonempty {A : Type} (l : list A) (a : A) (l' : list A) : l ++ a :: l' <> [].
Proof. destruct l; discriminate. Qed.

Lemma setLastEdgeFlag_nonempty (c c' : SubContour) (b : bool) :
  setLastEdgeFlag c b = Some c' -> c' <> [].
Proof.
  unfold setLastEdgeFlag. destruct (lastOpt c); simpl; [|discriminate].
  intros [= <-]. apply app_cons_nonempty.
Qed.

Lemma pushResult_nonEmpty (q : Z) (c : SubContour) res :
  c <> [] -> nonEmptyResult res -> nonEmptyResult (pushResult q c res).
Proof.
  intros Hc [H0 H1]. unfold pushResult, nonEmptyResult.
  destruct (q =? 0)%Z; simpl; split; auto; apply Forall_app; auto.
Qed.

Section SplitNonEmpty.

Variable greatCircleIntersection : Vec3d -> Vec3d -> Vec3d -> Vec3d * bool.
Variable onLine : Z.

Lemma splitFirstLoop_unfinished (todo : list EdgeVertex) :
  forall s s' todo',
    unfinishedSubContour s <> [] ->
    splitFirstLoop greatCircleIntersection onLine todo s = (s', todo') ->
    unfinishedSubContour s' <> [] /\ result s' = result s.
Proof.
  induction todo as [|cv todo IH]; intros s s' todo' Hne; simpl.
  - intros [= <- <-]. auto.
  - destruct (getSide (vertex cv) onLine =? previousQuadrant s)%Z.
    + intros H. apply IH in H; simpl; auto. apply app_cons_nonempty.
    + destruct (greatCircleIntersection _ _ _) as [t ok].
      destruct ok; simpl; intros [= <- <-]; simpl; split; auto.
      apply app_cons_nonempty.
Qed.

Lemma splitSecondLoop_nonEmpty (todo : list EdgeVertex) :
  forall s s',
    nonEmptyResult (result s) ->
    splitSecondLoop greatCircleIntersection onLine todo s = Some s' ->
    nonEmptyResult (result s') /\ unfinishedSubContour s' = unfinishedSubContour s.
Proof.
  induction todo as [|cv todo IH]; intros s s' Hres; simpl.
  - intros [= <-]. auto.
  - destruct (getSide (vertex cv) onLine =? previousQuadrant s)%Z.
    + intros H. apply IH in H; simpl; auto.
    + destruct (greatCircleIntersection _ _ _) as [t ok].
      destruct ok; simpl.
      * intros H. apply IH in H; simpl; auto.
        apply pushResult_nonEmpty; auto. apply app_cons_nonempty.
      * destruct (setLastEdgeFlag (currentSubContour s) false) as [closed|] eqn:L;
          simpl; [|discriminate].
        intros H. apply IH in H; simpl; auto.
        apply pushResult_nonEmpty; auto. apply (setLastEdgeFlag_nonempty _ _ _ L).
Qed.

Lemma splitClose_nonEmpty (first : EdgeVertex) (s : SplitState) res :
  unfinishedSubContour s <> [] ->
  nonEmptyResult (result s) ->
  splitClose greatCircleIntersection onLine first s = Some res ->
  nonEmptyResult res.
Proof.
  intros Hunf Hres. unfold splitClose.
  assert (Hfinal : forall c, c ++ unfinishedSubContour s <> []).
  { intros c H. apply app_eq_nil in H. destruct H. auto. }
  destruct (getSide (vertex first) onLine =? currentQuadrant s)%Z; simpl.
  - intros [= <-]. apply pushResult_nonEmpty; auto.
  - destruct (greatCircleIntersection _ _ _) as [t ok].
    destruct ok; simpl.
    + intros [= <-]. apply pushResult_nonEmpty; [discriminate|].
      apply pushResult_nonEmpty; auto. apply app_cons_nonempty.
    + destruct (setLastEdgeFlag (currentSubContour s) false) as [closed|] eqn:L;
        simpl; [|discriminate].
      intros [= <-]. apply pushResult_nonEmpty; auto.
      apply pushResult_nonEmpty; auto. apply (setLastEdgeFlag_nonempty _ _ _ L).
Qed.

Lemma splitContourByPlan_nonEmpty (inputContour : SubContour) res0 res :
  nonEmptyResult res0 ->
  splitContourByPlan greatCircleIntersection onLine inputContour res0 = Some res ->
  nonEmptyResult res.
Proof.
  intros Hres0. unfold splitContourByPlan.
  destruct inputContour as [|first rest]; simpl; [discriminate|].
  rewrite Z.eqb_refl.
  destruct (splitFirstLoop greatCircleIntersection onLine rest _) as [s1 todo] eqn:L1.
  destruct (splitSecondLoop greatCircleIntersection onLine todo s1) as [s2|] eqn:L2;
    simpl; [|discriminate].
  apply splitFirstLoop_unfinished in L1; [|simpl; discriminate].
  destruct L1 as [Hunf Hr]. simpl in Hr.
  apply splitSecondLoop_nonEmpty in L2; [|rewrite Hr; exact Hres0].
  destruct L2 as [Hres2 Hunf2].
  apply splitClose_nonEmpty; auto. rewrite Hunf2. exact Hunf.
Qed.

Lemma splitAll_total (l : list SubContour) :
  forall res0,
    Forall (fun c : SubContour => c <> []) l ->
    nonEmptyResult res0 ->
    exists res, splitAll greatCircleIntersection onLine l res0 = Some res /\
                nonEmptyResult res.
Proof.
  unfold splitAll. induction l as [|c l IH]; intros res0 Hl Hres0; simpl.
  - exists res0. auto.
  - inversion Hl as [|? ? Hc Hl']; subst.
    destruct (splitContourByPlan_total greatCircleIntersection onLine c res0 Hc) as [res1 H1].
    rewrite H1. simpl. apply IH; auto.
    apply (splitContourByPlan_nonEmpty c res0 res1 Hres0 H1).
Qed.

End SplitNonEmpty.

Lemma completeWithPole_total (c : SubContour) :
  c <> [] -> exists c', completeWithPole c = Some c' /\ c' <> [].
Proof.
  intros Hc. unfold completeWithPole.
  destruct (lastOpt_Some c Hc) as [l ->]. simpl.
  destruct (edgeFlag l); [eauto|].
  destruct c as [|f c]; [congruence|]. simpl.
  destruct (_ >? _); [eexists; split; [reflexivity | discriminate]|].
  destruct (_ <? _); [eexists; split; [reflexivity | discriminate]|].
  eauto.
Qed.

Lemma mapM_completeWithPole_total (l : list SubContour) :
  Forall (fun c : SubContour => c <> []) l ->
  exists l', mapM completeWithPole l = Some l' /\
             Forall (fun c : SubContour => c <> []) l'.
Proof.
  induction l as [|c l IH]; intros Hl; simpl.
  - exists []. auto.
  - inversion Hl as [|? ? Hc Hl']; subst.
    destruct (completeWithPole_total c Hc) as (c' & -> & Hc'). simpl.
    destruct (IH Hl') as (l' & -> & Hl''). simpl.
    exists (c' :: l'). auto.
Qed.

Lemma splitQuadrant_total gci (quadrant : list SubContour) :
  Forall (fun c : SubContour => c <> []) quadrant ->
  exists res, splitQuadrant gci quadrant = Some res.
Proof.
  intros H. unfold splitQuadrant.
  destruct (mapM_completeWithPole_total quadrant H) as (l' & -> & Hl'). simpl.
  destruct (splitAll_total gci 2 l' ([], []) Hl') as (res & Hres & _).
  - split; constructor.
  - eauto.
Qed.

(** Every [first()] and [last()] read by the decomposition of a non-empty
    contour is a read of a non-empty vector: appendSubContour returns. *)
Lemma appendSubContour_total gci (this : OctahedronPolygon) (inContour : SubContour) :
  inContour <> [] -> exists this', appendSubContour gci this inContour = Some this'.
Proof.
  intros Hne. unfold appendSubContour.
  assert (Hnil : nonEmptyResult ([], [])) by (split; constructor).
  destruct (splitContourByPlan_total gci 1 inContour ([], []) Hne) as [p1 H1].
  rewrite H1. simpl.
  destruct (splitContourByPlan_nonEmpty gci 1 inContour _ _ Hnil H1) as [Hp0 Hp1].
  destruct (splitAll_total gci 0 (fst p1) ([], []) Hp0 Hnil) as (q01 & -> & Hq0 & Hq1).
  destruct (splitAll_total gci 0 (snd p1) ([], []) Hp1 Hnil) as (q23 & -> & Hq2 & Hq3).
  simpl.
  destruct (splitQuadrant_total gci _ Hq0) as [r0 ->].
  destruct (splitQuadrant_total gci _ Hq1) as [r1 ->].
  destruct (splitQuadrant_total gci _ Hq2) as [r2 ->].
  destruct (splitQuadrant_total gci _ Hq3) as [r3 ->].
  simpl. eexists. reflexivity.
Qed.
(** *** The half-spaces of the output *)

Lemma dot_planOf (v : Vec3d) (onLine : Z) :
  (0 <= onLine < 3)%Z -> dot v (planOf onLine) = vget v onLine.
Proof.
  intros H. assert (C : onLine = 0%Z \/ onLine = 1%Z \/ onLine = 2%Z) by lia.
  destruct C as [-> | [-> | ->]]; unfold dot, planOf, vget; simpl; ring.
Qed.

(** C3: on the output of splitContourByPlan for an axis in {0,1,2}, every
    vertex of result[0] has v[a] >= 0 or lies on the cutting plane, every
    vertex of result[1] has v[a] < 0 or lies on the cutting plane, and every
    vertex is either a vertex of the input or an intersection vertex made at
    a crossing, which carries edgeFlag = false; every vertex of the input is
    placed in one of the two outputs.  The intersection routine is assumed
    to return points of the cutting plane. *)
Theorem splitContourByPlan_half_spaces gci (onLine : Z) (inputContour : SubContour)
    (r0 r1 : list SubContour) :
  (0 <= onLine < 3)%Z ->
  (forall p q t, gci p q (planOf onLine) = (t, true) -> dot t (planOf onLine) = 0) ->
  splitContourByPlan gci onLine inputContour ([], []) = Some (r0, r1) ->
  (forall c v, In c r0 -> In v c ->
     vget (vertex v) onLine >= 0 \/ dot (vertex v) (planOf onLine) = 0) /\
  (forall c v, In c r1 -> In v c ->
     vget (vertex v) onLine < 0 \/ dot (vertex v) (planOf onLine) = 0) /\
  (forall c v, In c r0 \/ In c r1 -> In v c ->
     (exists v0, In v0 inputContour /\ vertex v = vertex v0) \/
     isCutVertex gci onLine inputContour v) /\
  (forall v0, In v0 inputContour ->
     exists c v, (In c r0 \/ In c r1) /\ In v c /\ vertex v = vertex v0).
Proof.
  intros Ha Hg Hsplit.
  pose proof (splitContourByPlan_keeps _ _ _ _ _ Hsplit) as Hkeep.
  apply splitContourByPlan_resultOk in Hsplit; [|split; constructor].
  destruct Hsplit as [H0 H1]. simpl in H0, H1.
  rewrite Forall_forall in H0, H1.
  assert (Hcut : forall v, isCutVertex gci onLine inputContour v ->
            dot (vertex v) (planOf onLine) = 0).
  { intros v (_ & p & q & _ & _ & _ & G). exact (Hg _ _ _ G). }
  repeat split.
  - intros c v Hc Hv. specialize (H0 c Hc). rewrite Forall_forall in H0.
    destruct (H0 v Hv) as [[Hs _] | Hc']; [left | right; auto].
    apply getSide_nonneg. exact Hs.
  - intros c v Hc Hv. specialize (H1 c Hc). rewrite Forall_forall in H1.
    destruct (H1 v Hv) as [[Hs _] | Hc']; [left | right; auto].
    apply getSide_neg. exact Hs.
  - intros c v [Hc | Hc] Hv.
    + specialize (H0 c Hc). rewrite Forall_forall in H0.
      destruct (H0 v Hv) as [[_ (v0 & Hin & Hv0 & _)] | Hc']; [left; eauto | right; auto].
    + specialize (H1 c Hc). rewrite Forall_forall in H1.
      destruct (H1 v Hv) as [[_ (v0 & Hin & Hv0 & _)] | Hc']; [left; eauto | right; auto].
  - intros v0 Hv0. destruct (Hkeep v0 Hv0) as (c & Hc & Hp). simpl in Hc.
    apply in_map_iff in Hp. destruct Hp as (v & Hv & Hin).
    exists c, v. auto.
Qed.

(** *** Running the splitter on concrete contours *)

Lemma getSide_0 (v : Vec3d) (onLine : Z) : vget v onLine >= 0 -> getSide v onLine = 0%Z.
Proof. apply getSide_nonneg. Qed.

Lemma getSide_1 (v : Vec3d) (onLine : Z) : vget v onLine < 0 -> getSide v onLine = 1%Z.
Proof. apply getSide_neg. Qed.

Ltac eval_sides :=
  repeat first [ rewrite getSide_0 by (unfold vget; simpl; lra)
               | rewrite getSide_1 by (unfold vget; simpl; lra) ].

Ltac eval_split :=
  unfold splitContourByPlan, splitClose;
  repeat (progress (cbn -[getSide]; eval_sides)).

Example splitContourByPlan_contourAcrossX :
  splitContourByPlan gciPole 0 contourAcrossX ([], [])
  = Some ([[ mkEdgeVertex (mkVec3d 0 0 1) false;
             mkEdgeVertex (mkVec3d 1 0 0) true;
             mkEdgeVertex (mkVec3d 0 1 0) true;
             mkEdgeVertex (mkVec3d 0 0 1) false ]],
          [[ mkEdgeVertex (mkVec3d 0 0 1) false;
             mkEdgeVertex (mkVec3d (-1) 0 0) true;
             mkEdgeVertex (mkVec3d 0 0 1) false ]]).
Proof. unfold contourAcrossX, gciPole. eval_split. reflexivity. Qed.

Lemma splitContourByPlan_half_spaces_witness :
  let r0 := [[ mkEdgeVertex (mkVec3d 0 0 1) false;
               mkEdgeVertex (mkVec3d 1 0 0) true;
               mkEdgeVertex (mkVec3d 0 1 0) true;
               mkEdgeVertex (mkVec3d 0 0 1) false ]] in
  let r1 := [[ mkEdgeVertex (mkVec3d 0 0 1) false;
               mkEdgeVertex (mkVec3d (-1) 0 0) true;
               mkEdgeVertex (mkVec3d 0 0 1) false ]] in
  (forall c v, In c r0 -> In v c ->
     vget (vertex v) 0 >= 0 \/ dot (vertex v) (planOf 0) = 0) /\
  (forall c v, In c r1 -> In v c ->
     vget (vertex v) 0 < 0 \/ dot (vertex v) (planOf 0) = 0) /\
  (forall c v, In c r0 \/ In c r1 -> In v c ->
     (exists v0, In v0 contourAcrossX /\ vertex v = vertex v0) \/
     isCutVertex gciPole 0 contourAcrossX v) /\
  (forall v0, In v0 contourAcrossX ->
     exists c v, (In c r0 \/ In c r1) /\ In v c /\ vertex v = vertex v0).
Proof.
  intros r0 r1.
  apply (splitContourByPlan_half_spaces gciPole 0 contourAcrossX r0 r1).
  - lia.
  - intros p q t [= <-]. unfold dot, planOf; simpl. lra.
  - unfold contourAcrossX, gciPole, r0, r1. eval_split. reflexivity.
Defined.

(** C4 (evaluation of the code where the claim fails): when the
    intersection fails at the first crossing found, here between the
    antipodal vertices (0,1,0) and (0,-1,0) across the plane Y=0, the
    contour that ends at that crossing keeps edgeFlag = true on its last
    vertex (0,1,0): it is the last vertex of the last contour of result[0]. *)
Theorem first_crossing_failure_keeps_edgeFlag gci :
  snd (gci (mkVec3d 0 1 0) (mkVec3d 0 (-1) 0) (planOf 1)) = false ->
  exists r0 r1 c,
    splitContourByPlan gci 1 contourAntipodal ([], []) = Some (r0, r1) /\
    lastOpt r0 = Some c /\
    lastOpt c = Some (mkEdgeVertex (mkVec3d 0 1 0) true).
Proof.
  intros Hfail. unfold contourAntipodal. eval_split.
  destruct (gci (mkVec3d 0 1 0) (mkVec3d 0 (-1) 0) (planOf 1)) as [t ok] eqn:G.
  simpl in Hfail. subst ok. eval_split.
  destruct (gci (mkVec3d 0.6 (-0.8) 0) (mkVec3d 0 1 0) (planOf 1)) as [t' ok'] eqn:G'.
  destruct ok'; eval_split; do 3 eexists; repeat split; reflexivity.
Qed.

Lemma first_crossing_failure_keeps_edgeFlag_witness :
  exists r0 r1 c,
    splitContourByPlan gciFail 1 contourAntipodal ([], []) = Some (r0, r1) /\
    lastOpt r0 = Some c /\
    lastOpt c = Some (mkEdgeVertex (mkVec3d 0 1 0) true).
Proof.
  apply (first_crossing_failure_keeps_edgeFlag gciFail). reflexivity.
Defined.

(** With the routine that always fails, the same contour shows both
    behaviours: the failure on the closing segment clears the flag of
    (0.6,-0.8,0), the failure at the first crossing leaves that of (0,1,0). *)
Example splitContourByPlan_contourAntipodal :
  splitContourByPlan gciFail 1 contourAntipodal ([], [])
  = Some ([[ mkEdgeVertex (mkVec3d 0 1 0) true ]],
          [[ mkEdgeVertex (mkVec3d 0 (-1) 0) true;
             mkEdgeVertex (mkVec3d 0.6 (-0.8) 0) false ]]).
Proof. unfold contourAntipodal, gciFail. eval_split. reflexivity. Qed.

(** ** Boolean operations on disjoint bounding caps *)

Lemma updateVertexArray_sides glues (this this' : OctahedronPolygon) :
  updateVertexArray glues this = Some this' ->
  sides this' = sides this /\
  (capN this', capD this') = computeBoundingCap (outlineCachedVertexArray this').
Proof.
  unfold updateVertexArray.
  destruct (foldM (updateOneSide glues (sides this)) (seq 0 8) ([], [])) as [caches|];
    simpl; [|discriminate].
  intros [= <-]. simpl. split; [reflexivity|].
  destruct (computeBoundingCap (snd caches)); reflexivity.
Qed.

Lemma polyEast_polyWest_disjoint :
  intersectsBoundingCap (capN polyEast) (capD polyEast) (capN polyWest) (capD polyWest)
  = false.
Proof.
  unfold intersectsBoundingCap, polyEast, polyWest, dot; simpl.
  rbool. repeat split; lra.
Qed.


(** ** Pole completion *)

(** The body of the pole-completion loop, case by case: a sub-contour
    whose last vertex has edgeFlag = true is left as it is; otherwise, with
    c = first.vertex x last.vertex, the vertex (0,0,-1) with edgeFlag = false
    is appended when c.z > 0.00000001, the vertex (0,0,1) with
    edgeFlag = false when c.z < -0.0000001, and nothing in between. *)
Theorem completeWithPole_cases (tmpSubContour : SubContour) (f l : EdgeVertex) :
  firstOpt tmpSubContour = Some f ->
  lastOpt tmpSubContour = Some l ->
  let c := cross (vertex f) (vertex l) in
  (edgeFlag l = true -> completeWithPole tmpSubContour = Some tmpSubContour) /\
  (edgeFlag l = false -> vget c 2 > 0.00000001 ->
     completeWithPole tmpSubContour
     = Some (tmpSubContour ++ [mkEdgeVertex (mkVec3d 0 0 (-1)) false])) /\
  (edgeFlag l = false -> vget c 2 < - 0.0000001 ->
     completeWithPole tmpSubContour
     = Some (tmpSubContour ++ [mkEdgeVertex (mkVec3d 0 0 1) false])) /\
  (edgeFlag l = false -> - 0.0000001 <= vget c 2 <= 0.00000001 ->
     completeWithPole tmpSubContour = Some tmpSubContour).
Proof.
  intros Hf Hl c. unfold completeWithPole. rewrite Hl, Hf. simpl. fold c.
  repeat split; intros He; rewrite He; try reflexivity; intros Hc.
  - destruct (vget c 2 >? 0.00000001) eqn:E; [reflexivity | rbool; lra].
  - destruct (vget c 2 >? 0.00000001) eqn:E; [rbool; lra|].
    destruct (vget c 2 <? - 0.0000001) eqn:E'; [reflexivity | rbool; lra].
  - destruct (vget c 2 >? 0.00000001) eqn:E; [rbool; lra|].
    destruct (vget c 2 <? - 0.0000001) eqn:E'; [rbool; lra | reflexivity].
Qed.

Lemma completeWithPole_cases_witness :
  completeWithPole contourOpenEnd
  = Some (contourOpenEnd ++ [mkEdgeVertex (mkVec3d 0 0 (-1)) false]).
Proof.
  destruct (completeWithPole_cases contourOpenEnd
              (mkEdgeVertex (mkVec3d 1 0 0) true) (mkEdgeVertex (mkVec3d 0 1 0) false)
              eq_refl eq_refl) as (_ & H & _).
  apply H; [reflexivity | unfold vget, cross; simpl; lra].
Defined.

(** In the decomposition the loop body is applied to every sub-contour of a
    quadrant. *)
Lemma splitQuadrant_completes gci (quadrant : list SubContour) res :
  splitQuadrant gci quadrant = Some res ->
  exists completed,
    mapM completeWithPole quadrant = Some completed /\
    splitAll gci 2 completed ([], []) = Some res.
Proof.
  unfold splitQuadrant. destruct (mapM completeWithPole quadrant) as [completed|];
    simpl; [|discriminate].
  intros H. exists completed. auto.
Qed.

(** ** The combine callback of the line-loop pass *)

Lemma combineFlag_prefix (vertex_data : list (option EdgeVertex)) (newFlag : bool) :
  LineLoop.combineFlag vertex_data newFlag
  = newFlag || existsb edgeFlag (presentPrefix vertex_data).
Proof.
  revert newFlag. induction vertex_data as [|[v|] rest IH]; intros newFlag; simpl.
  - rewrite orb_false_r. reflexivity.
  - rewrite IH, orb_assoc. reflexivity.
  - rewrite orb_false_r. reflexivity.
Qed.

Lemma nullsTrail_presentPrefix {A : Type} (vertex_data : list (option A)) :
  nullsTrail vertex_data = true -> presentPrefix vertex_data = present vertex_data.
Proof.
  induction vertex_data as [|[v|] rest IH]; simpl; intros H.
  - reflexivity.
  - rewrite IH by exact H. reflexivity.
  - destruct (present rest); [reflexivity | discriminate].
Qed.

(** C8 (as amended): the vertex made by combineLineLoopCallback carries the
    logical OR of the edge flags of the contributing vertices that come
    before the first absent entry among the four; when no vertex follows an
    absent entry, this is the OR over all the contributing vertices that are
    present.  The vertex is also the one stored last in tempVertices. *)
Theorem combineLineLoopCallback_edgeFlag (coords : Vec3d)
    (vertex_data : list (option EdgeVertex))
    (userData : LineLoop.OctTessLineLoopCallbackData) :
  let out := LineLoop.combineLineLoopCallback coords vertex_data userData in
  edgeFlag (fst out) = existsb edgeFlag (presentPrefix (firstn 4 vertex_data)) /\
  (nullsTrail (firstn 4 vertex_data) = true ->
   edgeFlag (fst out) = existsb edgeFlag (present (firstn 4 vertex_data))) /\
  vertex (fst out) = coords /\
  LineLoop.tempVertices (snd out) = LineLoop.tempVertices userData ++ [fst out].
Proof.
  simpl. rewrite combineFlag_prefix. simpl.
  repeat split. intros H. rewrite (nullsTrail_presentPrefix _ H). reflexivity.
Qed.

(** C8 (as stated) fails: with the four entries (v0, NULL, v2, NULL), where
    v0 has edgeFlag = false and v2 has edgeFlag = true, the OR over the
    present vertices is true and the new vertex gets edgeFlag = false. *)
Lemma combineLineLoopCallback_counterexample :
  ~ (forall (coords : Vec3d) (vertex_data : list (option EdgeVertex))
            (userData : LineLoop.OctTessLineLoopCallbackData),
        List.length vertex_data = 4%nat ->
        edgeFlag (fst (LineLoop.combineLineLoopCallback coords vertex_data userData))
        = existsb edgeFlag (present vertex_data)).
Proof.
  intros H.
  specialize (H (mkVec3d 0 0 0)
                [Some (mkEdgeVertex (mkVec3d 0.5 0.5 0) false); None;
                 Some (mkEdgeVertex (mkVec3d 0.25 0.75 0) true); None]
                (LineLoop.mkData [] [] []) eq_refl).
  simpl in H. discriminate.
Qed.

(** ** getPointInside *)

(** C9: getPointInside reads the fill vertices 0, 1 and 2.  With at least
    three fill vertices the reads are in bounds and the result is the
    normalized sum of the first three; with fewer, a read is out of
    bounds. *)
Theorem getPointInside_bounds (this : OctahedronPolygon) :
  getPointInside this
  = match fillCachedVertexArray this with
    | t0 :: t1 :: t2 :: _ => Some (normalize (vadd (vadd t0 t1) t2))
    | _ => None
    end /\
  ((3 <= List.length (fillCachedVertexArray this))%nat ->
   exists t0 t1 t2,
     nth_error (fillCachedVertexArray this) 0 = Some t0 /\
     nth_error (fillCachedVertexArray this) 1 = Some t1 /\
     nth_error (fillCachedVertexArray this) 2 = Some t2 /\
     getPointInside this = Some (normalize (vadd (vadd t0 t1) t2))) /\
  ((List.length (fillCachedVertexArray this) < 3)%nat ->
   nth_error (fillCachedVertexArray this) 2 = None /\ getPointInside this = None).
Proof.
  unfold getPointInside.
  destruct (fillCachedVertexArray this) as [|t0 [|t1 [|t2 rest]]]; simpl;
    repeat split; try reflexivity; try (intros; lia).
  intros _. exists t0, t1, t2. auto.
Qed.

(** ** toJSON *)

Lemma sapp_assoc (a b c : string) : ((a ++ b) ++ c = a ++ (b ++ c))%string.
Proof. induction a as [|x a IH]; simpl; [reflexivity | rewrite IH; reflexivity]. Qed.

Lemma length_snoc (s : string) (a : ascii) :
  String.length (s ++ String a EmptyString) = S (String.length s).
Proof. induction s as [|x s IH]; simpl; [reflexivity | rewrite IH; reflexivity]. Qed.

Lemma setCharAt_length (s : string) (a b : ascii) :
  setCharAt (s ++ String a EmptyString) (String.length s) b
  = (s ++ String b EmptyString)%string.
Proof. induction s as [|x s IH]; simpl; [reflexivity | rewrite IH; reflexivity]. Qed.

Lemma setCharAt_last (s : string) (a b : ascii) :
  setCharAt (s ++ String a EmptyString) (String.length (s ++ String a EmptyString) - 1) b
  = (s ++ String b EmptyString)%string.
Proof.
  rewrite length_snoc. simpl. rewrite Nat.sub_0_r. apply setCharAt_length.
Qed.

Section JSONProofs.

Variable rectToSphe : Vec3d -> R * R.
Variable number : R -> string.

Lemma vertexJSON_comma (v : EdgeVertex) :
  exists entry, vertexJSON rectToSphe number v = (entry ++ ",")%string.
Proof.
  unfold vertexJSON. destruct (rectToSphe (vertex v)) as [ra dec].
  exists ("[" ++ number (ra * 180 / PI) ++ "," ++ number (dec * 180 / PI) ++ ","
              ++ (if edgeFlag v then "true" else "false") ++ "]")%string.
  rewrite !sapp_assoc. reflexivity.
Qed.

Lemma toJSONLoop_app (c : SubContour) (v : EdgeVertex) :
  toJSONLoop rectToSphe number (c ++ [v])
  = (toJSONLoop rectToSphe number c ++ vertexJSON rectToSphe number v)%string.
Proof. unfold toJSONLoop. rewrite fold_left_app. reflexivity. Qed.

Lemma toJSONLoop_head (c : SubContour) :
  forall s : string,
    exists t : string,
      fold_left (fun res v => (res ++ vertexJSON rectToSphe number v)%string) c
                (String "[" s)
      = String "[" t.
Proof.
  induction c as [|x c IH]; intros s; simpl; [exists s; reflexivity | apply IH].
Qed.

(** C10: toJSON of the empty sub-contour is the single character "]": the
    replacement of the last character overwrites the opening "[".  On a
    non-empty sub-contour the text built by the loop ends with a comma and
    toJSON is that text with "]" in place of the final comma. *)
Theorem toJSON_empty_and_nonempty :
  toJSON rectToSphe number [] = "]"%string /\
  (forall c : SubContour, c <> [] ->
     exists body : string,
       toJSONLoop rectToSphe number c = (body ++ ",")%string /\
       String.get 0 body = Some "["%char /\
       toJSON rectToSphe number c = (body ++ "]")%string).
Proof.
  split; [reflexivity|].
  intros c Hc. destruct (exists_last Hc) as (c' & v & ->).
  destruct (vertexJSON_comma v) as [entry He].
  exists (toJSONLoop rectToSphe number c' ++ entry)%string.
  unfold toJSON. rewrite toJSONLoop_app, He, <- sapp_assoc.
  repeat split.
  - unfold toJSONLoop. destruct (toJSONLoop_head c' EmptyString) as [t ->]. reflexivity.
  - apply setCharAt_last.
Qed.

End JSONProofs.

(** * Further properties of the code *)

(** ** More on the bounding-cap predicates *)

Lemma dot_comm (a b : Vec3d) : dot a b = dot b a.
Proof. unfold dot. ring. Qed.

Lemma Rleb_refl (a : R) : (a <=? a) = true.
Proof. apply Rleb_true. lra. Qed.

(** X1: intersectsBoundingCap gives the same answer when the two caps are
    swapped. *)
Theorem intersectsBoundingCap_sym (n1 : Vec3d) (d1 : R) (n2 : Vec3d) (d2 : R) :
  intersectsBoundingCap n1 d1 n2 d2 = intersectsBoundingCap n2 d2 n1 d1.
Proof.
  unfold intersectsBoundingCap.
  rewrite (dot_comm n2 n1), (Rmult_comm d2 d1), (Rplus_comm d2 d1),
    (Rmult_comm (1 - d2 * d2) (1 - d1 * d1)).
  reflexivity.
Qed.

(** X2: containsBoundingCap too gives the same answer when the two caps are
    swapped: with the guard [d1<=d1] it does not tell which cap is the
    larger one. *)
Theorem containsBoundingCap_sym (n1 : Vec3d) (d1 : R) (n2 : Vec3d) (d2 : R) :
  containsBoundingCap n1 d1 n2 d2 = containsBoundingCap n2 d2 n1 d1.
Proof.
  unfold containsBoundingCap.
  rewrite (dot_comm n2 n1), (Rmult_comm d2 d1),
    (Rmult_comm (1 - d2 * d2) (1 - d1 * d1)), !Rleb_refl.
  reflexivity.
Qed.

(** X3: whenever containsBoundingCap answers true, intersectsBoundingCap
    answers true on the same caps. *)
Theorem containsBoundingCap_intersects (n1 : Vec3d) (d1 : R) (n2 : Vec3d) (d2 : R) :
  containsBoundingCap n1 d1 n2 d2 = true ->
  intersectsBoundingCap n1 d1 n2 d2 = true.
Proof.
  unfold containsBoundingCap, intersectsBoundingCap. rbool.
  intros [_ [H | [H _]]]; left; right; lra.
Qed.

Lemma containsBoundingCap_intersects_witness :
  intersectsBoundingCap (mkVec3d 0 0 1) 0 (mkVec3d 0 0 1) 0.5 = true.
Proof.
  apply (containsBoundingCap_intersects (mkVec3d 0 0 1) 0 (mkVec3d 0 0 1) 0.5).
  unfold containsBoundingCap, dot; simpl. rbool.
  split; [lra|]. left. lra.
Defined.

(** X4: a cap with a unit normal and d in [-1,1] intersects itself and
    contains itself. *)
Theorem boundingCap_self (n : Vec3d) (d : R) :
  isUnit n -> -1 <= d <= 1 ->
  intersectsBoundingCap n d n d = true /\ containsBoundingCap n d n d = true.
Proof.
  unfold isUnit, lengthSquared. intros Hu Hd.
  unfold intersectsBoundingCap, containsBoundingCap. rewrite Hu.
  assert (Hp : 0 <= (1 - d) * (1 + d)) by (apply Rmult_le_pos; lra).
  rbool. split.
  - left. right. lra.
  - split; [lra|]. right. split; lra.
Qed.

Lemma boundingCap_self_witness :
  intersectsBoundingCap (mkVec3d 0 1 0) 0.5 (mkVec3d 0 1 0) 0.5 = true /\
  containsBoundingCap (mkVec3d 0 1 0) 0.5 (mkVec3d 0 1 0) 0.5 = true.
Proof.
  apply (boundingCap_self (mkVec3d 0 1 0) 0.5).
  - unfold isUnit, lengthSquared, dot; simpl; lra.
  - lra.
Defined.

(** *** The intersection test never rejects two caps that share a point *)

Lemma cauchy_schwarz_unit (a b : Vec3d) :
  isUnit a -> isUnit b -> -1 <= dot a b <= 1.
Proof.
  unfold isUnit, lengthSquared. intros Ha Hb.
  assert (H : dot a a * dot b b - dot a b * dot a b
              = dot (cross a b) (cross a b)) by (unfold dot, cross; simpl; ring).
  assert (Hc : 0 <= dot (cross a b) (cross a b)).
  { unfold dot. pose proof (Rle_0_sqr (vx (cross a b))).
    pose proof (Rle_0_sqr (vy (cross a b))). pose proof (Rle_0_sqr (vz (cross a b))).
    unfold Rsqr in *. lra. }
  rewrite Ha, Hb in H. nra.
Qed.

(** The determinant of the Gram matrix of three unit vectors is a square. *)
Lemma gram_unit (n1 n2 v : Vec3d) :
  isUnit n1 -> isUnit n2 -> isUnit v ->
  (dot n1 v * dot n2 v - dot n1 n2) * (dot n1 v * dot n2 v - dot n1 n2)
  <= (1 - dot n1 v * dot n1 v) * (1 - dot n2 v * dot n2 v).
Proof.
  unfold isUnit, lengthSquared. intros H1 H2 Hv.
  assert (H : dot n1 n1 * dot n2 n2 * dot v v
              - dot n1 n1 * (dot n2 v * dot n2 v)
              - dot n2 n2 * (dot n1 v * dot n1 v)
              - dot v v * (dot n1 n2 * dot n1 n2)
              + 2 * dot n1 n2 * dot n1 v * dot n2 v
              = dot n1 (cross n2 v) * dot n1 (cross n2 v))
    by (unfold dot, cross; simpl; ring).
  rewrite H1, H2, Hv in H.
  pose proof (Rle_0_sqr (dot n1 (cross n2 v))) as Hs. unfold Rsqr in Hs.
  lra.
Qed.

Lemma cos_acos_plus (x y : R) :
  -1 <= x <= 1 -> -1 <= y <= 1 ->
  cos (acos x + acos y) = x * y - sqrt (1 - x * x) * sqrt (1 - y * y).
Proof.
  intros Hx Hy. rewrite cos_plus, !cos_acos, !sin_acos by assumption.
  unfold Rsqr. reflexivity.
Qed.

Lemma acos_le (x y : R) : -1 <= x <= 1 -> -1 <= y <= 1 -> x <= y -> acos y <= acos x.
Proof.
  intros Hx Hy H.
  pose proof (acos_bound x). pose proof (acos_bound y).
  apply cos_decr_0; try lra. rewrite !cos_acos by assumption. exact H.
Qed.

Lemma acos_plus_lt_PI (x y : R) :
  -1 <= x <= 1 -> -1 <= y <= 1 -> 0 < x + y -> acos x + acos y < PI.
Proof.
  intros Hx Hy H.
  pose proof (acos_bound x). pose proof (acos_bound y). pose proof (acos_bound (- y)).
  assert (acos x < acos (- y)).
  { apply cos_decreasing_0; try lra. rewrite !cos_acos by lra. lra. }
  rewrite acos_opp in *. lra.
Qed.

Lemma le_sqrt_of_sq_le (u s : R) : 0 <= s -> u * u <= s * s -> u <= s.
Proof. intros Hs H. destruct (Rle_dec u s); [assumption | nra]. Qed.

(** X5: if some unit vector lies in both caps {v : n1.v >= d1} and
    {v : n2.v >= d2} (unit normals), intersectsBoundingCap returns true. *)
Theorem intersectsBoundingCap_sound (n1 : Vec3d) (d1 : R) (n2 : Vec3d) (d2 : R)
    (v : Vec3d) :
  isUnit n1 -> isUnit n2 -> isUnit v ->
  dot n1 v >= d1 -> dot n2 v >= d2 ->
  intersectsBoundingCap n1 d1 n2 d2 = true.
Proof.
  intros U1 U2 Uv Hx Hy. unfold intersectsBoundingCap.
  set (c := dot n1 n2). set (x := dot n1 v) in *. set (y := dot n2 v) in *.
  pose proof (cauchy_schwarz_unit n1 v U1 Uv) as Bx. fold x in Bx.
  pose proof (cauchy_schwarz_unit n2 v U2 Uv) as By. fold y in By.
  pose proof (gram_unit n1 n2 v U1 U2 Uv) as G. fold x y c in G.
  rbool.
  destruct (Rle_dec (d1 + d2) 0) as [|Hs]; [left; left; assumption|].
  destruct (Rle_dec (d1 * d2 - c) 0) as [|Ha]; [left; right; assumption|].
  right.
  assert (B1 : -1 <= d1 <= 1) by lra. assert (B2 : -1 <= d2 <= 1) by lra.
  set (S := sqrt (1 - d1 * d1) * sqrt (1 - d2 * d2)).
  set (T := sqrt (1 - x * x) * sqrt (1 - y * y)).
  assert (P1 : 0 <= 1 - d1 * d1) by nra. assert (P2 : 0 <= 1 - d2 * d2) by nra.
  assert (Q1 : 0 <= 1 - x * x) by nra. assert (Q2 : 0 <= 1 - y * y) by nra.
  assert (HS : 0 <= S) by (apply Rmult_le_pos; apply sqrt_pos).
  assert (HT : 0 <= T) by (apply Rmult_le_pos; apply sqrt_pos).
  assert (HSS : S * S = (1 - d1 * d1) * (1 - d2 * d2)).
  { unfold S. transitivity ((sqrt (1 - d1 * d1) * sqrt (1 - d1 * d1))
                            * (sqrt (1 - d2 * d2) * sqrt (1 - d2 * d2))); [ring|].
    rewrite !sqrt_sqrt by assumption. reflexivity. }
  assert (HTT : T * T = (1 - x * x) * (1 - y * y)).
  { unfold T. transitivity ((sqrt (1 - x * x) * sqrt (1 - x * x))
                            * (sqrt (1 - y * y) * sqrt (1 - y * y))); [ring|].
    rewrite !sqrt_sqrt by assumption. reflexivity. }
  assert (Hxy : x * y - T <= c).
  { assert (x * y - c <= T) by (apply le_sqrt_of_sq_le; [assumption | lra]). lra. }
  assert (Hcos : cos (acos d1 + acos d2) <= cos (acos x + acos y)).
  { pose proof (acos_bound x). pose proof (acos_bound y).
    pose proof (acos_le d1 x B1 Bx ltac:(lra)).
    pose proof (acos_le d2 y B2 By ltac:(lra)).
    pose proof (acos_plus_lt_PI d1 d2 B1 B2 ltac:(lra)).
    apply cos_decr_1; lra. }
  rewrite !cos_acos_plus in Hcos by assumption. fold S T in Hcos.
  assert (Hle : d1 * d2 - c <= S) by lra.
  assert (Hsq : (d1 * d2 - c) * (d1 * d2 - c) <= S * S) by nra.
  split; [|lra].
  assert (S * S <= 1) by (rewrite HSS; nra).
  nra.
Qed.

Lemma intersectsBoundingCap_sound_witness :
  intersectsBoundingCap (mkVec3d 1 0 0) 0.5 (mkVec3d 0 1 0) 0.5 = true.
Proof.
  apply (intersectsBoundingCap_sound (mkVec3d 1 0 0) 0.5 (mkVec3d 0 1 0) 0.5
           (mkVec3d 0.6 0.8 0));
    unfold isUnit, lengthSquared, dot; simpl; lra.
Defined.

(** ** More on the plane splitter *)

(** X6: splitContourByPlan fails exactly on the empty contour, where it
    reads first() of an empty vector; on every other contour all its reads
    of first() and last() are in bounds and it returns. *)
Theorem splitContourByPlan_fails_iff_empty gci (onLine : Z) (inputContour : SubContour)
    (res0 : list SubContour * list SubContour) :
  splitContourByPlan gci onLine inputContour res0 = None <-> inputContour = [].
Proof.
  split.
  - intros H. destruct inputContour as [|v l]; [reflexivity|].
    destruct (splitContourByPlan_total gci onLine (v :: l) res0) as [res Hres];
      [discriminate | congruence].
  - intros ->. reflexivity.
Qed.

Section OneSide.

Variable greatCircleIntersection : Vec3d -> Vec3d -> Vec3d -> Vec3d * bool.
Variable onLine : Z.

Lemma splitFirstLoop_one_side (todo : list EdgeVertex) :
  forall s,
    (forall v, In v todo -> getSide (vertex v) onLine = previousQuadrant s) ->
    exists pv,
      splitFirstLoop greatCircleIntersection onLine todo s
      = (mkSplitState (currentSubContour s) (unfinishedSubContour s ++ todo)
                      (previousQuadrant s)
                      (if isEmptyList todo then currentQuadrant s else previousQuadrant s)
                      pv (result s), []).
Proof.
  induction todo as [|cv todo IH]; intros s Hside; simpl.
  - exists (previousVertex s). rewrite app_nil_r. destruct s; reflexivity.
  - rewrite (Hside cv) by (left; reflexivity). rewrite Z.eqb_refl.
    destruct (IH (mkSplitState (currentSubContour s) (unfinishedSubContour s ++ [cv])
                    (previousQuadrant s) (previousQuadrant s) cv (result s)))
      as (pv & ->).
    + intros v Hv. simpl. apply Hside. right. exact Hv.
    + simpl. rewrite <- app_assoc. simpl. exists pv.
      destruct (isEmptyList todo); reflexivity.
Qed.

End OneSide.

(** X7: a non-empty contour whose vertices all lie on the same side q of
    the plane is put whole and unchanged at the end of result[q]; the
    intersection routine is not used. *)
Theorem splitContourByPlan_one_side gci (onLine : Z) (inputContour : SubContour)
    (res0 : list SubContour * list SubContour) (q : Z) :
  inputContour <> [] ->
  (forall v, In v inputContour -> getSide (vertex v) onLine = q) ->
  splitContourByPlan gci onLine inputContour res0
  = Some (pushResult q inputContour res0).
Proof.
  intros Hne Hside. unfold splitContourByPlan.
  destruct inputContour as [|first rest]; [congruence|].
  assert (Hq : getSide (vertex first) onLine = q) by (apply Hside; left; reflexivity).
  cbn [firstOpt hd_error bind]. rewrite Hq.
  destruct (splitFirstLoop_one_side gci onLine (first :: rest)
              (mkSplitState [] [] q 0%Z first res0)) as (pv & ->).
  - exact Hside.
  - simpl. unfold splitClose. simpl.
    rewrite Hq, Z.eqb_refl. reflexivity.
Qed.

Lemma splitContourByPlan_one_side_witness :
  splitContourByPlan gciFail 2 contourAcrossX ([], []) = Some ([contourAcrossX], []).
Proof.
  apply (splitContourByPlan_one_side gciFail 2 contourAcrossX ([], []) 0%Z).
  - discriminate.
  - intros v [<- | [<- | [<- | []]]]; apply getSide_nonneg; unfold vget; simpl; lra.
Defined.

(** X8: starting from empty output lists, no contour that
    splitContourByPlan puts in result[0] or result[1] is empty. *)
Theorem splitContourByPlan_no_empty_contour gci (onLine : Z) (inputContour : SubContour)
    (r0 r1 : list SubContour) :
  splitContourByPlan gci onLine inputContour ([], []) = Some (r0, r1) ->
  forall c, In c r0 \/ In c r1 -> c <> [].
Proof.
  intros H. apply splitContourByPlan_nonEmpty in H; [|split; constructor].
  destruct H as [H0 H1]. simpl in H0, H1. rewrite Forall_forall in H0, H1.
  intros c [Hc | Hc]; auto.
Qed.

Lemma splitContourByPlan_no_empty_contour_witness :
  [ mkEdgeVertex (mkVec3d 0 (-1) 0) true; mkEdgeVertex (mkVec3d 0.6 (-0.8) 0) false ] <> [].
Proof.
  apply (splitContourByPlan_no_empty_contour gciFail 1 contourAntipodal _ _
           splitContourByPlan_contourAntipodal).
  right. left. reflexivity.
Defined.

(** X9: the splitter never turns an edge flag on: every vertex of the
    output with edgeFlag = true is a vertex of the input, with its flag. *)
Theorem splitContourByPlan_edgeFlag_from_input gci (onLine : Z)
    (inputContour : SubContour) (r0 r1 : list SubContour) :
  splitContourByPlan gci onLine inputContour ([], []) = Some (r0, r1) ->
  forall c v, In c r0 \/ In c r1 -> In v c -> edgeFlag v = true -> In v inputContour.
Proof.
  intros H. apply splitContourByPlan_resultOk in H; [|split; constructor].
  destruct H as [H0 H1]. simpl in H0, H1. rewrite Forall_forall in H0, H1.
  assert (G : forall q v, splitVertexOk gci onLine inputContour q v ->
                edgeFlag v = true -> In v inputContour).
  { intros q v [[_ (v0 & Hin & Hv & Hf)] | [Hf _]] Ht; [|congruence].
    destruct Hf as [Hf | Hf]; [|congruence].
    destruct v as [p f], v0 as [p0 f0]. simpl in *. subst. exact Hin. }
  intros c v [Hc | Hc] Hv.
  - specialize (H0 c Hc). rewrite Forall_forall in H0. apply (G _ _ (H0 v Hv)).
  - specialize (H1 c Hc). rewrite Forall_forall in H1. apply (G _ _ (H1 v Hv)).
Qed.

Lemma splitContourByPlan_edgeFlag_from_input_witness :
  In (mkEdgeVertex (mkVec3d 0 1 0) true) contourAcrossX.
Proof.
  apply (splitContourByPlan_edgeFlag_from_input gciPole 0 contourAcrossX _ _
           splitContourByPlan_contourAcrossX
           [ mkEdgeVertex (mkVec3d 0 0 1) false; mkEdgeVertex (mkVec3d 1 0 0) true;
             mkEdgeVertex (mkVec3d 0 1 0) true; mkEdgeVertex (mkVec3d 0 0 1) false ]).
  - left. left. reflexivity.
  - right. right. left. reflexivity.
  - reflexivity.
Defined.

(** ** Projection on the octahedron and the decomposition *)

Lemma in_mapi {A B : Type} (f : nat -> A -> B) (l : list A) (b : B) :
  In b (mapi f l) -> exists i a, In a l /\ b = f i a.
Proof.
  unfold mapi. intros H. apply in_map_iff in H. destruct H as ([i a] & <- & Hin).
  exists i, a. split; [|reflexivity]. apply (in_combine_r _ _ _ _ Hin).
Qed.

Lemma length_mapi {A B : Type} (f : nat -> A -> B) (l : list A) :
  List.length (mapi f l) = List.length l.
Proof.
  unfold mapi. rewrite length_map, length_combine, length_seq. apply Nat.min_id.
Qed.

Lemma map_mapi {A B C : Type} (g : B -> C) (f : nat -> A -> B) (h : A -> C) (l : list A) :
  (forall i a, g (f i a) = h a) -> map g (mapi f l) = map h l.
Proof.
  intros H. unfold mapi. generalize 0%nat.
  induction l as [|a l IH]; intros n; simpl; [reflexivity|].
  rewrite H. f_equal. apply IH.
Qed.

Lemma projectOnOctahedron_planar (inSides : list (list SubContour)) :
  forall subs c v,
    In subs (projectOnOctahedron inSides) -> In c subs -> In v c ->
    vz (vertex v) = 0.
Proof.
  intros subs c v Hs Hc Hv. unfold projectOnOctahedron in Hs.
  apply in_mapi in Hs. destruct Hs as (i & subs0 & _ & ->).
  apply in_map_iff in Hc. destruct Hc as (c0 & <- & _).
  apply in_map_iff in Hv. destruct Hv as (v0 & <- & _).
  reflexivity.
Qed.

(** X10: projectOnOctahedron moves the vertices only: the faces, the
    contours of each face and the edge flags of each contour are the same,
    and every vertex of the result has z = 0. *)
Theorem projectOnOctahedron_flags_and_plane (inSides : list (list SubContour)) :
  map (map (map edgeFlag)) (projectOnOctahedron inSides)
  = map (map (map edgeFlag)) inSides /\
  (forall subs c v,
     In subs (projectOnOctahedron inSides) -> In c subs -> In v c ->
     vz (vertex v) = 0).
Proof.
  split.
  - unfold projectOnOctahedron. apply map_mapi. intros i subs.
    rewrite map_map. apply map_ext. intros c. rewrite map_map. reflexivity.
  - apply projectOnOctahedron_planar.
Qed.

Lemma nth_appendSides (sides other : list (list SubContour)) (i : nat) :
  (i < 8)%nat ->
  nth i (appendSides sides other) [] = nth i sides [] ++ nth i other [].
Proof.
  intros Hi. unfold appendSides.
  do 8 (destruct i as [|i]; [reflexivity|]). lia.
Qed.

Lemma length_appendSides (sides other : list (list SubContour)) :
  List.length (appendSides sides other) = 8%nat.
Proof. reflexivity. Qed.

Lemma appendSubContour_shape gci (this this' : OctahedronPolygon) (inContour : SubContour) :
  appendSubContour gci this inContour = Some this' ->
  exists resultSides,
    this' = mkOctahedronPolygon
              (appendSides (sides this) (projectOnOctahedron resultSides))
              (fillCachedVertexArray this) (outlineCachedVertexArray this)
              (capN this) (capD this).
Proof.
  unfold appendSubContour. intros H.
  repeat match type of H with
         | bind ?o _ = Some _ => destruct o; cbn [bind] in H; [|discriminate]
         end.
  injection H as <-. eexists. reflexivity.
Qed.

(** X11: on a non-empty contour appendSubContour returns; the region then
    has eight faces, each face keeps the contours it had, in front, every
    vertex of a contour that was added has z = 0, and the caches and the
    bounding cap are not touched. *)
Theorem appendSubContour_adds_planar gci (this : OctahedronPolygon)
    (inContour : SubContour) :
  inContour <> [] ->
  exists this',
    appendSubContour gci this inContour = Some this' /\
    List.length (sides this') = 8%nat /\
    fillCachedVertexArray this' = fillCachedVertexArray this /\
    outlineCachedVertexArray this' = outlineCachedVertexArray this /\
    capN this' = capN this /\ capD this' = capD this /\
    (forall i, (i < 8)%nat ->
       exists added,
         nth i (sides this') [] = nth i (sides this) [] ++ added /\
         (forall c v, In c added -> In v c -> vz (vertex v) = 0)).
Proof.
  intros Hne. destruct (appendSubContour_total gci this inContour Hne) as [this' H].
  exists this'. split; [exact H|].
  apply appendSubContour_shape in H. destruct H as [resultSides ->].
  cbn [sides fillCachedVertexArray outlineCachedVertexArray capN capD].
  repeat split; try reflexivity.
  intros i Hi. eexists. split; [apply nth_appendSides; exact Hi|].
  intros c v Hc Hv.
  destruct (nth_in_or_default i (projectOnOctahedron resultSides) []) as [Hin | Hd].
  - apply (projectOnOctahedron_planar resultSides _ c v Hin Hc Hv).
  - rewrite Hd in Hc. destruct Hc.
Qed.

Lemma appendSubContour_adds_planar_witness :
  exists this', appendSubContour gciPole polyEast contourAcrossX = Some this'.
Proof.
  destruct (appendSubContour_adds_planar gciPole polyEast contourAcrossX) as (this' & H & _).
  - discriminate.
  - exists this'. exact H.
Defined.

(** ** Unprojection of planar points *)

Lemma dot_unprojected (n v : Vec3d) :
  vz n <> 0 -> vz v = 0 ->
  dot n (vsetz v ((1 - dot n v) / vget n 2)) = 1.
Proof.
  intros Hn Hv. destruct n as [nx ny nz], v as [x y z].
  unfold dot, vsetz, vget in *; simpl in *. subst z. field. exact Hn.
Qed.

Lemma lengthSquared_pos_of_dot (n w : Vec3d) : dot n w = 1 -> 0 < lengthSquared w.
Proof.
  intros H. unfold lengthSquared, dot in *.
  pose proof (Rle_0_sqr (vx w)) as Hx. pose proof (Rle_0_sqr (vy w)) as Hy.
  pose proof (Rle_0_sqr (vz w)) as Hz. unfold Rsqr in *.
  destruct (Req_dec (vx w * vx w + vy w * vy w + vz w * vz w) 0) as [E | E]; [|lra].
  assert (vx w * vx w = 0) by lra. assert (vy w * vy w = 0) by lra.
  assert (vz w * vz w = 0) by lra.
  assert (vx w = 0) by (destruct (Rmult_integral _ _ H0); assumption).
  assert (vy w = 0) by (destruct (Rmult_integral _ _ H1); assumption).
  assert (vz w = 0) by (destruct (Rmult_integral _ _ H2); assumption).
  rewrite H3, H4, H5 in H. lra.
Qed.

Lemma dot_vscale (n w : Vec3d) (s : R) : dot n (vscale w s) = dot n w * s.
Proof. unfold dot, vscale; simpl. ring. Qed.

Lemma normalize_isUnit (w : Vec3d) : 0 < lengthSquared w -> isUnit (normalize w).
Proof.
  intros H. unfold isUnit, normalize. rewrite lengthSquared_vscale.
  pose proof (sqrt_lt_R0 _ H) as Hs.
  pose proof (sqrt_sqrt (lengthSquared w) ltac:(lra)) as Hq.
  rewrite <- Hq at 3. field. lra.
Qed.

(** X12: for a point of the plane z = 0 and the side direction of an
    octant, unprojectOctahedron returns a unit vector lying strictly on the
    positive side of that direction. *)
Theorem unprojectOctahedron_unit (i : nat) (v : Vec3d) :
  (i < 8)%nat -> vz v = 0 ->
  isUnit (unprojectOctahedron v (sideDirection i)) /\
  dot (sideDirection i) (unprojectOctahedron v (sideDirection i)) > 0.
Proof.
  intros Hi Hv. pose proof (sideDirection_vz i Hi) as Hn.
  pose proof (dot_unprojected _ _ Hn Hv) as H1.
  pose proof (lengthSquared_pos_of_dot _ _ H1) as HL.
  unfold unprojectOctahedron. split.
  - apply normalize_isUnit. exact HL.
  - unfold normalize. rewrite dot_vscale, H1.
    pose proof (sqrt_lt_R0 _ HL) as Hs.
    assert (0 < 1 / sqrt (lengthSquared
              (vsetz v ((1 - dot (sideDirection i) v) / vget (sideDirection i) 2))))
      by (apply Rdiv_lt_0_compat; lra).
    lra.
Qed.

Lemma unprojectOctahedron_unit_witness :
  isUnit (unprojectOctahedron (mkVec3d 0.5 0.25 0) (sideDirection 0)) /\
  dot (sideDirection 0) (unprojectOctahedron (mkVec3d 0.5 0.25 0) (sideDirection 0)) > 0.
Proof.
  apply (unprojectOctahedron_unit 0 (mkVec3d 0.5 0.25 0)); [lia | reflexivity].
Defined.

(** X13: projecting back a point of the plane z = 0 after its unprojection,
    with the same side direction, gives the point. *)
Theorem projectVertex_unprojectOctahedron (i : nat) (v : Vec3d) :
  (i < 8)%nat -> vz v = 0 ->
  projectVertex (sideDirection i) (unprojectOctahedron v (sideDirection i)) = v.
Proof.
  intros Hi Hv. pose proof (sideDirection_vz i Hi) as Hn.
  pose proof (dot_unprojected _ _ Hn Hv) as H1.
  pose proof (lengthSquared_pos_of_dot _ _ H1) as HL.
  pose proof (sqrt_lt_R0 _ HL) as Hs.
  unfold unprojectOctahedron, projectVertex, normalize.
  rewrite dot_vscale, H1.
  set (s := sqrt (lengthSquared
                    (vsetz v ((1 - dot (sideDirection i) v) / vget (sideDirection i) 2)))) in *.
  destruct v as [x y z]. simpl in Hv. subst z.
  unfold vsetz, vscale; simpl. f_equal; field; lra.
Qed.

Lemma projectVertex_unprojectOctahedron_witness :
  projectVertex (sideDirection 5)
    (unprojectOctahedron (mkVec3d 0.5 (-0.25) 0) (sideDirection 5))
  = mkVec3d 0.5 (-0.25) 0.
Proof.
  apply (projectVertex_unprojectOctahedron 5 (mkVec3d 0.5 (-0.25) 0)); [lia | reflexivity].
Defined.

(** ** The bounding cap *)

Lemma fold_capD_le (capN : Vec3d) (l : list Vec3d) :
  forall init,
    let m := fold_left (fun capD v => if dot capN v <? capD then dot capN v else capD)
                       l init in
    m <= init /\ forall v, In v l -> m <= dot capN v.
Proof.
  induction l as [|a l IH]; intros init; simpl.
  - split; [lra | intros v []].
  - destruct (IH (if dot capN a <? init then dot capN a else init)) as [H1 H2].
    destruct (dot capN a <? init) eqn:E; rbool.
    + split; [lra|]. intros v [<- | Hv]; [exact H1 | apply H2; exact Hv].
    + split; [exact H1|]. intros v [<- | Hv]; [lra | apply H2; exact Hv].
Qed.

Lemma lengthSquared_pos (v : Vec3d) : v <> mkVec3d 0 0 0 -> 0 < lengthSquared v.
Proof.
  intros H. unfold lengthSquared, dot.
  pose proof (Rle_0_sqr (vx v)) as Hx. pose proof (Rle_0_sqr (vy v)) as Hy.
  pose proof (Rle_0_sqr (vz v)) as Hz. unfold Rsqr in *.
  destruct (Req_dec (vx v * vx v + vy v * vy v + vz v * vz v) 0) as [E | E]; [|lra].
  exfalso. apply H.
  assert (vx v * vx v = 0) by lra. assert (vy v * vy v = 0) by lra.
  assert (vz v * vz v = 0) by lra.
  destruct v as [x y z]; simpl in *. f_equal.
  - destruct (Rmult_integral _ _ H0); assumption.
  - destruct (Rmult_integral _ _ H1); assumption.
  - destruct (Rmult_integral _ _ H2); assumption.
Qed.

Lemma computeBoundingCap_ge (trianglesArray : list Vec3d) (v : Vec3d) :
  fold_left vadd trianglesArray (mkVec3d 0 0 0) <> mkVec3d 0 0 0 ->
  In v trianglesArray ->
  dot (fst (computeBoundingCap trianglesArray)) v >= snd (computeBoundingCap trianglesArray).
Proof.
  intros _. unfold computeBoundingCap.
  destruct trianglesArray as [|a l]; [intros []|]. intros Hv.
  cbn [isEmptyList].
  set (capN := normalize (fold_left vadd (a :: l) (mkVec3d 0 0 0))).
  destruct (fold_capD_le capN (a :: l) 1) as [H1 H2].
  set (m := fold_left (fun capD v => if dot capN v <? capD then dot capN v else capD)
                      (a :: l) 1) in *.
  cbn [fst snd]. specialize (H2 v Hv).
  destruct (m >? 0) eqn:E; rbool; nra.
Qed.

(** X14: in exact real arithmetic, when the vertices do not sum to the zero
    vector, the cap computed by computeBoundingCap has a unit normal, holds
    every vertex it was computed from (capN.v >= capD, the assertion of the
    code) and has capD below 1; the empty array gives the cap ((1,0,0), 2). *)
Theorem computeBoundingCap_holds_vertices (trianglesArray : list Vec3d) :
  let cap := computeBoundingCap trianglesArray in
  (trianglesArray = [] -> cap = (mkVec3d 1 0 0, 2)) /\
  (fold_left vadd trianglesArray (mkVec3d 0 0 0) <> mkVec3d 0 0 0 ->
   isUnit (fst cap) /\
   (forall v, In v trianglesArray -> dot (fst cap) v >= snd cap) /\
   snd cap < 1).
Proof.
  cbv zeta. split; [intros ->; reflexivity|].
  intros Hsum. split; [|split].
  - unfold computeBoundingCap.
    destruct trianglesArray as [|a l]; [exfalso; apply Hsum; reflexivity|].
    cbn [isEmptyList fst]. apply normalize_isUnit. apply lengthSquared_pos. exact Hsum.
  - intros v Hv. apply computeBoundingCap_ge; assumption.
  - unfold computeBoundingCap.
    destruct trianglesArray as [|a l]; [exfalso; apply Hsum; reflexivity|].
    cbn [isEmptyList].
    set (capN := normalize (fold_left vadd (a :: l) (mkVec3d 0 0 0))).
    destruct (fold_capD_le capN (a :: l) 1) as [H1 H2].
    set (m := fold_left (fun capD v => if dot capN v <? capD then dot capN v else capD)
                        (a :: l) 1) in *.
    cbn [snd]. destruct (m >? 0) eqn:E; rbool; nra.
Qed.

Lemma computeBoundingCap_holds_vertices_witness :
  isUnit (fst (computeBoundingCap [mkVec3d 1 0 0; mkVec3d 0 1 0])) /\
  dot (fst (computeBoundingCap [mkVec3d 1 0 0; mkVec3d 0 1 0])) (mkVec3d 1 0 0)
  >= snd (computeBoundingCap [mkVec3d 1 0 0; mkVec3d 0 1 0]).
Proof.
  destruct (computeBoundingCap_holds_vertices [mkVec3d 1 0 0; mkVec3d 0 1 0]) as [_ H].
  destruct H as (H1 & H2 & _).
  - cbn [fold_left vadd vx vy vz]. intros E. injection E as E1 E2 E3. lra.
  - split; [exact H1 | apply H2; left; reflexivity].
Defined.

(** ** Triangle orientation *)

(** X15: in exact real arithmetic the three tests of
    isTriangleConvexPositive2D are one and the same determinant, so the
    function is the sign test of (b-a) x (c-a); it does not depend on which
    vertex comes first, and one of the two orientations of a triangle always
    passes.  (In doubles the three determinants are rounded one by one and
    can differ in sign on a triangle of area within rounding of zero.) *)
Theorem isTriangleConvexPositive2D_determinant (a b c : Vec3d) :
  isTriangleConvexPositive2D a b c
  = ((vx b - vx a) * (vy c - vy a) - (vy b - vy a) * (vx c - vx a) >=? 0) /\
  isTriangleConvexPositive2D a b c = isTriangleConvexPositive2D b c a /\
  isTriangleConvexPositive2D a b c || isTriangleConvexPositive2D c b a = true.
Proof.
  assert (E : forall a b c,
             isTriangleConvexPositive2D a b c
             = ((vx b - vx a) * (vy c - vy a) - (vy b - vy a) * (vx c - vx a) >=? 0)).
  { clear. intros a b c. unfold isTriangleConvexPositive2D, vget. simpl.
    set (d := (vx b - vx a) * (vy c - vy a) - (vy b - vy a) * (vx c - vx a)).
    replace ((vx c - vx b) * (vy a - vy b) - (vy c - vy b) * (vx a - vx b)) with d
      by (unfold d; ring).
    replace ((vx a - vx c) * (vy b - vy c) - (vy a - vy c) * (vx b - vx c)) with d
      by (unfold d; ring).
    destruct (d >=? 0); reflexivity. }
  split; [apply E|]. split.
  - rewrite !E. f_equal. ring.
  - rewrite !E. apply orb_true_iff.
    destruct (Rle_dec 0 ((vx b - vx a) * (vy c - vy a) - (vy b - vy a) * (vx c - vx a)))
      as [H | H]; [left | right]; apply Rgeb_true; nra.
Qed.

(** ** The caches built by updateVertexArray *)

Lemma foldM_invariant {A S : Type} (P : S -> Prop) (f : S -> A -> option S) (l : list A) :
  (forall s a s', P s -> f s a = Some s' -> P s') ->
  forall s s', P s -> foldM f l s = Some s' -> P s'.
Proof.
  intros Hf. induction l as [|a l IH]; intros s s' Hs; simpl.
  - intros [= <-]. exact Hs.
  - destruct (f s a) as [s1|] eqn:E; simpl; [|discriminate].
    apply IH. apply (Hf s a s1 Hs E).
Qed.

Lemma appendPositiveTriangles_length (sidenb : nat) (sd : Vec3d) (n : nat) :
  forall res fill,
    (List.length res <= n)%nat ->
    Nat.divide 3 (List.length fill) ->
    Nat.divide 3 (List.length (appendPositiveTriangles sidenb sd res fill)).
Proof.
  induction n as [|n IH]; intros res fill Hn Hf.
  - destruct res; [exact Hf | simpl in Hn; lia].
  - destruct res as [|a [|b [|c res]]]; try exact Hf.
    cbn [appendPositiveTriangles].
    assert (Hn' : (List.length res <= n)%nat) by (simpl in Hn; lia).
    destruct (if Nat.even sidenb then _ else _); apply IH; auto.
    rewrite length_app. simpl. destruct Hf as [k Hk]. exists (k + 1)%nat. lia.
Qed.

Lemma outlineLoop_even (sd : Vec3d) (rest : list EdgeVertex) :
  forall previous outline,
    Nat.even (List.length outline) = true ->
    Nat.even (List.length (snd (outlineLoop sd previous rest outline))) = true.
Proof.
  induction rest as [|next rest IH]; intros previous outline H; simpl; [exact H|].
  destruct (edgeFlag previous || edgeFlag next); apply IH; [|exact H].
  rewrite length_app, Nat.even_add, H. reflexivity.
Qed.

Lemma outlineOfContour_even (sd : Vec3d) (outline outline' : list Vec3d) (c : SubContour) :
  Nat.even (List.length outline) = true ->
  outlineOfContour sd outline c = Some outline' ->
  Nat.even (List.length outline') = true.
Proof.
  intros H. unfold outlineOfContour.
  destruct (firstOpt c) as [first|]; simpl; [|discriminate].
  pose proof (outlineLoop_even sd (tl c)
                (mkEdgeVertex (unprojectOctahedron (vertex first) sd) (edgeFlag first))
                outline H) as He.
  destruct (outlineLoop sd _ (tl c) outline) as [previous out]. simpl in He.
  destruct (edgeFlag previous || edgeFlag first); intros [= <-]; [|exact He].
  rewrite length_app, Nat.even_add, He. reflexivity.
Qed.

(** X16: updateVertexArray keeps the sides; the fill cache it builds holds
    a multiple of three vertices (whole triangles) and the outline cache an
    even number (whole segments); in exact real arithmetic, when the outline
    vertices do not sum to the zero vector, the cap holds every outline
    vertex. *)
Theorem updateVertexArray_caches glues (this this' : OctahedronPolygon) :
  updateVertexArray glues this = Some this' ->
  sides this' = sides this /\
  Nat.divide 3 (List.length (fillCachedVertexArray this')) /\
  Nat.even (List.length (outlineCachedVertexArray this')) = true /\
  (fold_left vadd (outlineCachedVertexArray this') (mkVec3d 0 0 0) <> mkVec3d 0 0 0 ->
   forall v, In v (outlineCachedVertexArray this') -> dot (capN this') v >= capD this').
Proof.
  unfold updateVertexArray.
  destruct (foldM (updateOneSide glues (sides this)) (seq 0 8) ([], [])) as [caches|] eqn:F;
    simpl; [|discriminate].
  intros [= <-]. simpl. split; [reflexivity|].
  assert (I : Nat.divide 3 (List.length (fst caches)) /\
              Nat.even (List.length (snd caches)) = true).
  { apply (foldM_invariant
             (fun cs : list Vec3d * list Vec3d =>
                Nat.divide 3 (List.length (fst cs)) /\
                Nat.even (List.length (snd cs)) = true)
             (updateOneSide glues (sides this)) (seq 0 8)) with (s := ([], [])) (3 := F).
    - intros [fill outline] sidenb [fill' outline'] [H3 H2]. unfold updateOneSide.
      destruct (isEmptyList (nth sidenb (sides this) [])); [intros [= <- <-]; auto|].
      destruct (tesselateOneSideTriangles glues (sides this) sidenb) as [res|];
        simpl; [|discriminate].
      destruct (foldM _ _ outline) as [o|] eqn:FO; simpl; [|discriminate].
      intros [= <- <-]. simpl in *. split.
      + apply (appendPositiveTriangles_length _ _ (List.length res)); auto.
      + apply (foldM_invariant (fun o : list Vec3d => Nat.even (List.length o) = true)
                 (outlineOfContour (sideDirection sidenb))
                 (nth sidenb (sides this) [])) with (s := outline) (3 := FO); [|exact H2].
        intros s c s' Hs Hc. apply (outlineOfContour_even _ _ _ _ Hs Hc).
    - split; [exists 0%nat; reflexivity | reflexivity]. }
  destruct I as [I3 I2]. repeat split; auto.
  intros Hsum v Hv. apply computeBoundingCap_ge; assumption.
Qed.

Lemma updateVertexArray_polyEast :
  exists this', updateVertexArray gluesSilent polyEast = Some this'.
Proof.
  unfold updateVertexArray, polyEast, gluesSilent.
  cbn [sides foldM seq updateOneSide nth isEmptyList repeat bind
       tesselateOneSideTriangles map Triangles.result
       appendPositiveTriangles fst snd outlineOfContour firstOpt hd_error tl
       outlineLoop edgeFlag vertex orb].
  eexists. reflexivity.
Qed.

Lemma updateVertexArray_caches_witness :
  exists this',
    updateVertexArray gluesSilent polyEast = Some this' /\
    sides this' = sides polyEast /\
    Nat.even (List.length (outlineCachedVertexArray this')) = true.
Proof.
  destruct updateVertexArray_polyEast as [this' H].
  exists this'. split; [exact H|].
  destruct (updateVertexArray_caches gluesSilent polyEast this' H) as (H1 & _ & H2 & _).
  split; assumption.
Defined.

(** ** Regions without contour *)

Lemma isEmpty_faces (this : OctahedronPolygon) :
  isEmpty this = true ->
  forall i, In i (seq 0 8) -> isEmptyList (nth i (sides this) []) = true.
Proof. unfold isEmpty. intros H. apply forallb_forall. exact H. Qed.

Lemma foldM_skip {A S : Type} (f : S -> A -> option S) (l : list A) (s : S) :
  (forall a, In a l -> f s a = Some s) -> foldM f l s = Some s.
Proof.
  induction l as [|a l IH]; intros H; simpl; [reflexivity|].
  rewrite H by (left; reflexivity). simpl. apply IH.
  intros b Hb. apply H. right. exact Hb.
Qed.

(** X17: on a region whose eight faces are empty the tessellator is never
    run: tesselate returns the region as it is, and updateVertexArray
    leaves both caches empty and stores the cap ((1,0,0), 2). *)
Theorem empty_region_no_tessellation glues (windingRule : TessWindingRule)
    (this : OctahedronPolygon) :
  isEmpty this = true ->
  tesselate glues windingRule this = Some this /\
  updateVertexArray glues this
  = Some (mkOctahedronPolygon (sides this) [] [] (mkVec3d 1 0 0) 2).
Proof.
  intros H. pose proof (isEmpty_faces this H) as Hf. split.
  - unfold tesselate. rewrite foldM_skip.
    + simpl. destruct this; reflexivity.
    + intros i Hi. rewrite (Hf i Hi). reflexivity.
  - unfold updateVertexArray. rewrite foldM_skip.
    + reflexivity.
    + intros i Hi. unfold updateOneSide. rewrite (Hf i Hi). reflexivity.
Qed.

Lemma empty_region_no_tessellation_witness :
  tesselate gluesSilent WindingAbsGeqTwo polyNone = Some polyNone /\
  updateVertexArray gluesSilent polyNone
  = Some (mkOctahedronPolygon (sides polyNone) [] [] (mkVec3d 1 0 0) 2).
Proof.
  apply (empty_region_no_tessellation gluesSilent WindingAbsGeqTwo polyNone).
  reflexivity.
Defined.

Lemma isEmptyList_app {A : Type} (a b : list A) :
  isEmptyList (a ++ b) = isEmptyList a && isEmptyList b.
Proof. destruct a; reflexivity. Qed.

Lemma forallb_andb {A : Type} (f g : A -> bool) (l : list A) :
  forallb (fun a => f a && g a) l = forallb f l && forallb g l.
Proof.
  induction l as [|a l IH]; simpl; [reflexivity|]. rewrite IH.
  destruct (f a), (g a), (forallb f l); reflexivity.
Qed.

Lemma forallb_ext_on {A : Type} (f g : A -> bool) (l : list A) :
  (forall a, In a l -> f a = g a) -> forallb f l = forallb g l.
Proof.
  induction l as [|a l IH]; intros H; simpl; [reflexivity|].
  rewrite (H a) by (left; reflexivity). rewrite IH; [reflexivity|].
  intros b Hb. apply H. right. exact Hb.
Qed.

Lemma forallb_seq_ext (f g : nat -> bool) (n : nat) :
  (forall i, (i < n)%nat -> f i = g i) -> forallb f (seq 0 n) = forallb g (seq 0 n).
Proof.
  intros H. apply forallb_ext_on. intros i Hi. apply in_seq in Hi. apply H. lia.
Qed.

(** X18: after append, and after appendReversed, the region is empty
    exactly when both regions were empty. *)
Theorem isEmpty_append (this other : OctahedronPolygon) :
  isEmpty (append this other) = isEmpty this && isEmpty other /\
  isEmpty (appendReversed this other) = isEmpty this && isEmpty other.
Proof.
  unfold isEmpty. rewrite <- forallb_andb. split; apply forallb_seq_ext; intros i Hi.
  - unfold append. cbn [sides]. rewrite nth_appendSides by exact Hi.
    apply isEmptyList_app.
  - unfold appendReversed. cbn [sides].
    do 8 (destruct i as [|i];
          [cbn [map seq nth]; rewrite isEmptyList_app;
           destruct (nth _ (sides other) []); reflexivity|]).
    lia.
Qed.

(** ** The outline of one contour *)

Lemma outlineLoop_no_flag (sd : Vec3d) (rest : list EdgeVertex) :
  forall previous outline,
    edgeFlag previous = false ->
    (forall v, In v rest -> edgeFlag v = false) ->
    snd (outlineLoop sd previous rest outline) = outline /\
    edgeFlag (fst (outlineLoop sd previous rest outline)) = false.
Proof.
  induction rest as [|next rest IH]; intros previous outline Hp Hr; simpl; [auto|].
  rewrite Hp, (Hr next) by (left; reflexivity). simpl.
  apply IH; [reflexivity | intros v Hv; apply Hr; right; exact Hv].
Qed.

Lemma outlineLoop_all_flags (sd : Vec3d) (rest : list EdgeVertex) :
  forall previous outline,
    edgeFlag previous = true ->
    (forall v, In v rest -> edgeFlag v = true) ->
    exists added,
      snd (outlineLoop sd previous rest outline) = outline ++ added /\
      List.length added = (2 * List.length rest)%nat /\
      edgeFlag (fst (outlineLoop sd previous rest outline)) = true.
Proof.
  induction rest as [|next rest IH]; intros previous outline Hp Hr; simpl.
  - exists []. rewrite app_nil_r. auto.
  - rewrite Hp. simpl.
    destruct (IH (mkEdgeVertex (unprojectOctahedron (vertex next) sd) (edgeFlag next))
                 (outline ++ [vertex previous; unprojectOctahedron (vertex next) sd]))
      as (added & E & L & F).
    + simpl. apply Hr. left. reflexivity.
    + intros v Hv. apply Hr. right. exact Hv.
    + eexists. rewrite E, <- app_assoc. split; [reflexivity|].
      split; [|exact F]. rewrite length_app, L. simpl. lia.
Qed.

(** X19: the outline of a contour: an empty contour is an out-of-bounds
    read of first(); a contour with no edge flag adds no segment; a contour
    with all its edge flags adds one segment (two vertices) per vertex. *)
Theorem outlineOfContour_flags (sd : Vec3d) (outline : list Vec3d) :
  outlineOfContour sd outline [] = None /\
  (forall c, c <> [] -> (forall v, In v c -> edgeFlag v = false) ->
     outlineOfContour sd outline c = Some outline) /\
  (forall c, c <> [] -> (forall v, In v c -> edgeFlag v = true) ->
     exists added,
       outlineOfContour sd outline c = Some (outline ++ added) /\
       List.length added = (2 * List.length c)%nat).
Proof.
  split; [reflexivity|]. split.
  - intros [|first rest] Hne Hf; [congruence|]. unfold outlineOfContour. simpl.
    destruct (outlineLoop_no_flag sd rest
                (mkEdgeVertex (unprojectOctahedron (vertex first) sd) (edgeFlag first))
                outline) as [E F].
    + simpl. apply Hf. left. reflexivity.
    + intros v Hv. apply Hf. right. exact Hv.
    + destruct (outlineLoop sd _ rest outline) as [previous out]. simpl in *.
      rewrite F, (Hf first) by (left; reflexivity). simpl. congruence.
  - intros [|first rest] Hne Hf; [congruence|]. unfold outlineOfContour. simpl.
    destruct (outlineLoop_all_flags sd rest
                (mkEdgeVertex (unprojectOctahedron (vertex first) sd) (edgeFlag first))
                outline) as (added & E & L & F).
    + simpl. apply Hf. left. reflexivity.
    + intros v Hv. apply Hf. right. exact Hv.
    + destruct (outlineLoop sd _ rest outline) as [previous out]. simpl in *.
      rewrite F. simpl. subst out. rewrite <- app_assoc. eexists. split; [reflexivity|].
      rewrite length_app, L. simpl. lia.
Qed.

(** ** The line-loop pass *)

Lemma nth_setNth_other {A : Type} (i j : nat) (x d : A) (l : list A) :
  i <> j -> nth j (setNth i x l) d = nth j l d.
Proof.
  revert i j. induction l as [|a l IH]; intros i j H; [destruct i; reflexivity|].
  destruct i as [|i], j as [|j]; simpl; try reflexivity; [congruence|].
  apply IH. congruence.
Qed.

Lemma length_setNth {A : Type} (i : nat) (x : A) (l : list A) :
  List.length (setNth i x l) = List.length l.
Proof.
  revert i. induction l as [|a l IH]; intros i; [destruct i; reflexivity|].
  destruct i; simpl; [reflexivity | rewrite IH; reflexivity].
Qed.

(** X20: tesselate changes the sides only: both caches and the cap keep
    their values, the number of faces is the same, and a face that had no
    contour still has none. *)
Theorem tesselate_frame glues (windingRule : TessWindingRule)
    (this this' : OctahedronPolygon) :
  tesselate glues windingRule this = Some this' ->
  fillCachedVertexArray this' = fillCachedVertexArray this /\
  outlineCachedVertexArray this' = outlineCachedVertexArray this /\
  capN this' = capN this /\ capD this' = capD this /\
  List.length (sides this') = List.length (sides this) /\
  (forall j, nth j (sides this) [] = [] -> nth j (sides this') [] = []).
Proof.
  unfold tesselate.
  destruct (foldM _ (seq 0 8) (sides this)) as [sides'|] eqn:F; simpl; [|discriminate].
  intros [= <-]. simpl. repeat split.
  - apply (foldM_invariant
             (fun s : list (list SubContour) => List.length s = List.length (sides this))
             _ (seq 0 8)) with (s := sides this) (3 := F); [|reflexivity].
    intros s i s' Hs. destruct (isEmptyList (nth i s [])); [intros [= <-]; exact Hs|].
    destruct (tesselateOneSideLineLoop glues windingRule s i); simpl; [|discriminate].
    intros [= <-]. rewrite length_setNth. exact Hs.
  - intros j Hj.
    apply (foldM_invariant
             (fun s : list (list SubContour) => nth j s [] = [])
             _ (seq 0 8)) with (s := sides this) (3 := F); [|exact Hj].
    intros s i s' Hs. destruct (isEmptyList (nth i s [])) eqn:E; [intros [= <-]; exact Hs|].
    destruct (tesselateOneSideLineLoop glues windingRule s i); simpl; [|discriminate].
    intros [= <-]. destruct (Nat.eq_dec i j) as [-> | Hij].
    + rewrite Hs in E. discriminate.
    + rewrite nth_setNth_other by exact Hij. exact Hs.
Qed.

Lemma tesselate_polyEast :
  tesselate gluesSilent WindingPositive polyEast
  = Some (mkOctahedronPolygon (repeat [] 8) [] [] (mkVec3d 1 0 0) 0.9).
Proof. reflexivity. Qed.

Lemma tesselate_frame_witness :
  capD (mkOctahedronPolygon (repeat [] 8) [] [] (mkVec3d 1 0 0) 0.9) = capD polyEast /\
  List.length (repeat (@nil SubContour) 8) = List.length (sides polyEast).
Proof.
  destruct (tesselate_frame gluesSilent WindingPositive polyEast _ tesselate_polyEast)
    as (_ & _ & _ & H1 & H2 & _).
  split; [exact H1 | exact H2].
Defined.

Lemma in_firstn {A : Type} (n : nat) (l : list A) (a : A) : In a (firstn n l) -> In a l.
Proof.
  revert l. induction n as [|n IH]; intros l; [intros []|].
  destruct l as [|b l]; simpl; [tauto|]. intros [H | H]; [left; exact H | right; auto].
Qed.

Section LineLoopFlags.

Variable contours : list SubContour.
Hypothesis contours_no_flag :
  forall c v, In c contours -> In v c -> edgeFlag v = false.

Lemma deref_no_flag data (r : TessRef) (v : EdgeVertex) :
  noFlag data -> LineLoop.deref contours data r = Some v -> edgeFlag v = false.
Proof.
  intros (_ & _ & Ht). destruct r as [c i | k]; simpl.
  - destruct (nth_error contours c) as [sub|] eqn:E; simpl; [|discriminate].
    intros H. apply (contours_no_flag sub v).
    + apply (nth_error_In _ _ E).
    + apply (nth_error_In _ _ H).
  - intros H. apply Ht. apply (nth_error_In _ _ H).
Qed.

Lemma mapM_derefOpt_no_flag data (ptrs : list (option TessRef)) :
  noFlag data ->
  forall vertex_data,
    mapM (derefOpt (LineLoop.deref contours data)) ptrs = Some vertex_data ->
    forall v, In (Some v) vertex_data -> edgeFlag v = false.
Proof.
  intros Hd. induction ptrs as [|p ptrs IH]; simpl; intros vd.
  - intros [= <-] v [].
  - destruct (derefOpt (LineLoop.deref contours data) p) as [o|] eqn:E; simpl;
      [|discriminate].
    destruct (mapM _ ptrs) as [vd'|]; simpl; [|discriminate].
    intros [= <-] v [-> | Hv]; [|apply (IH vd' eq_refl v Hv)].
    destruct p as [r|]; simpl in E; [|discriminate].
    destruct (LineLoop.deref contours data r) as [w|] eqn:D; simpl in E; [|discriminate].
    injection E as ->. apply (deref_no_flag data r v Hd D).
Qed.

Lemma combineFlag_no_flag (vertex_data : list (option EdgeVertex)) :
  (forall v, In (Some v) vertex_data -> edgeFlag v = false) ->
  LineLoop.combineFlag vertex_data false = false.
Proof.
  induction vertex_data as [|[v|] rest IH]; intros H; simpl; try reflexivity.
  rewrite (H v) by (left; reflexivity). apply IH.
  intros w Hw. apply H. right. exact Hw.
Qed.

Lemma callback_no_flag data data' (e : TessEvent) :
  noFlag data -> LineLoop.callback contours data e = Some data' -> noFlag data'.
Proof.
  intros Hd. pose proof Hd as (Hr & Hl & Ht). destruct e as [r | coords ptrs |]; simpl.
  - destruct (LineLoop.deref contours data r) as [v|] eqn:D; simpl; [|discriminate].
    intros [= <-]. unfold noFlag; simpl. repeat split; auto.
    intros w Hw. apply in_app_or in Hw. destruct Hw as [Hw | [<- | []]]; auto.
    apply (deref_no_flag data r v Hd D).
  - destruct (mapM _ ptrs) as [vd|] eqn:M; simpl; [|discriminate].
    intros [= <-]. unfold noFlag; simpl. repeat split; auto.
    intros w Hw. apply in_app_or in Hw. destruct Hw as [Hw | [<- | []]]; auto.
    cbn [edgeFlag]. apply combineFlag_no_flag. intros v Hv.
    apply (mapM_derefOpt_no_flag data ptrs Hd vd M v).
    apply (in_firstn 4 vd (Some v) Hv).
  - intros [= <-]. unfold noFlag; simpl. repeat split; auto.
    + intros v [].
    + intros c v Hc Hv. apply in_app_or in Hc. destruct Hc as [Hc | [<- | []]]; eauto.
Qed.

End LineLoopFlags.

(** X21: the line-loop pass makes no edge flag: when no vertex of the
    contours of a face has edgeFlag = true, no vertex of the loops returned
    for that face has. *)
Theorem tesselateOneSideLineLoop_no_flag glues (windingRule : TessWindingRule)
    (this : list (list SubContour)) (sidenb : nat) (loops : list SubContour) :
  (forall c v, In c (nth sidenb this []) -> In v c -> edgeFlag v = false) ->
  tesselateOneSideLineLoop glues windingRule this sidenb = Some loops ->
  forall c v, In c loops -> In v c -> edgeFlag v = false.
Proof.
  intros Hin. unfold tesselateOneSideLineLoop.
  destruct (foldM _ _ (LineLoop.mkData [] [] [])) as [data|] eqn:F; simpl; [|discriminate].
  intros [= <-].
  assert (H : noFlag data).
  { apply (foldM_invariant noFlag (LineLoop.callback (nth sidenb this [])) _)
      with (s := LineLoop.mkData [] [] []) (3 := F).
    - intros s e s' Hs He. apply (callback_no_flag _ Hin s s' e Hs He).
    - unfold noFlag; simpl. repeat split; intros; contradiction. }
  destruct H as (_ & H & _). exact H.
Qed.

Lemma tesselateOneSideLineLoop_sidesNoFlag :
  tesselateOneSideLineLoop gluesMerge WindingPositive sidesNoFlag 0
  = Some [[ mkEdgeVertex (mkVec3d 0.8 0.1 0) false;
            mkEdgeVertex (mkVec3d 0.9 0 0) false;
            mkEdgeVertex (mkVec3d 0.85 0.05 0) false ]].
Proof. reflexivity. Qed.

Lemma tesselateOneSideLineLoop_no_flag_witness :
  edgeFlag (mkEdgeVertex (mkVec3d 0.85 0.05 0) false) = false.
Proof.
  apply (tesselateOneSideLineLoop_no_flag gluesMerge WindingPositive sidesNoFlag 0 _
           ltac:(intros c v [<- | []] [<- | [<- | [<- | []]]]; reflexivity)
           tesselateOneSideLineLoop_sidesNoFlag
           [ mkEdgeVertex (mkVec3d 0.8 0.1 0) false;
             mkEdgeVertex (mkVec3d 0.9 0 0) false;
             mkEdgeVertex (mkVec3d 0.85 0.05 0) false ]).
  - left. reflexivity.
  - right. right. left. reflexivity.
Defined.

(** ** The constructor of SubContour *)

Lemma lastOpt_setLastEdgeFlag (c c' : SubContour) (b : bool) :
  setLastEdgeFlag c b = Some c' -> exists l, lastOpt c' = Some l /\ edgeFlag l = b.
Proof.
  unfold setLastEdgeFlag. destruct (lastOpt c) as [l|]; simpl; [|discriminate].
  intros [= <-]. eexists. split; [apply lastOpt_app | reflexivity].
Qed.

Lemma firstOpt_setLastEdgeFlag (c c' : SubContour) (f : EdgeVertex) :
  edgeFlag f = false -> firstOpt c = Some f ->
  setLastEdgeFlag c false = Some c' ->
  exists f', firstOpt c' = Some f' /\ edgeFlag f' = false.
Proof.
  intros Hf Hc. unfold setLastEdgeFlag.
  destruct (lastOpt c) as [l|] eqn:E; simpl; [|discriminate]. intros [= <-].
  destruct c as [|a [|b c]]; simpl in *; [discriminate | |].
  - eexists. split; reflexivity.
  - injection Hc as ->. exists f. auto.
Qed.

(** X22: the constructor SubContour(vertices, closed) keeps the vertices in
    order.  Closed, it returns on every list and sets every edge flag; open,
    it fails exactly on the empty list (first() of an empty vector) and
    clears the flags of the first and of the last vertex. *)
Theorem newSubContour_flags (vertices : list Vec3d) (closed : bool) :
  (newSubContour vertices closed = None <-> closed = false /\ vertices = []) /\
  (forall c, newSubContour vertices closed = Some c ->
     map vertex c = vertices /\
     (closed = true -> forall v, In v c -> edgeFlag v = true) /\
     (closed = false ->
      exists f l, firstOpt c = Some f /\ lastOpt c = Some l /\
                  edgeFlag f = false /\ edgeFlag l = false)).
Proof.
  unfold newSubContour. destruct closed.
  - split; [split; [discriminate | intros [? _]; discriminate]|].
    intros c [= <-]. rewrite map_map, map_id. split; [reflexivity|].
    split; [|discriminate]. intros _ v Hv. apply in_map_iff in Hv.
    destruct Hv as (p & <- & _). reflexivity.
  - destruct vertices as [|p vertices]; simpl.
    + split; [split; auto | discriminate].
    + split.
      * split; [|intros [_ ?]; discriminate]. intros H. exfalso.
        destruct (setLastEdgeFlag_Some
                    (mkEdgeVertex p false :: map (fun v => mkEdgeVertex v true) vertices)
                    false ltac:(discriminate)) as [c Hc].
        congruence.
      * intros c Hc. split; [|split; [discriminate|]].
        -- rewrite (setLastEdgeFlag_positions _ _ _ Hc). simpl.
           rewrite map_map, map_id. reflexivity.
        -- intros _.
           destruct (firstOpt_setLastEdgeFlag
                       (mkEdgeVertex p false
                          :: map (fun v => mkEdgeVertex v true) vertices)
                       c (mkEdgeVertex p false) eq_refl eq_refl Hc)
             as (f & Hf & Hff).
           destruct (lastOpt_setLastEdgeFlag _ _ _ Hc) as (l & Hl & Hlf).
           exists f, l. auto.
Qed.

(** ** What the boolean operations keep *)

Lemma tesselate_length glues (windingRule : TessWindingRule) (this this' : OctahedronPolygon) :
  tesselate glues windingRule this = Some this' ->
  List.length (sides this') = List.length (sides this).
Proof.
  unfold tesselate.
  destruct (foldM _ (seq 0 8) (sides this)) as [sides'|] eqn:F; simpl; [|discriminate].
  intros [= <-]. simpl.
  apply (foldM_invariant
           (fun s : list (list SubContour) => List.length s = List.length (sides this))
           _ (seq 0 8)) with (s := sides this) (3 := F); [|reflexivity].
  intros s i s' Hs. destruct (isEmptyList (nth i s [])); [intros [= <-]; exact Hs|].
  destruct (tesselateOneSideLineLoop glues windingRule s i); simpl; [|discriminate].
  intros [= <-]. rewrite length_setNth. exact Hs.
Qed.

Lemma updateVertexArray_capConsistent glues (this this' : OctahedronPolygon) :
  List.length (sides this) = 8%nat ->
  updateVertexArray glues this = Some this' -> capConsistent this'.
Proof.
  intros H8 H. apply updateVertexArray_sides in H. destruct H as [Hs Hc].
  split; [rewrite Hs; exact H8 | exact Hc].
Qed.

(** X23: the three in-place operations keep the region consistent: if the
    region has eight faces and its cap is the one computed from its outline
    cache, the same holds of the region each operation returns, whether it
    returns early or rebuilds the caches. *)
Theorem inPlace_operations_capConsistent glues (this mpoly this' : OctahedronPolygon) :
  capConsistent this ->
  inPlaceIntersection glues this mpoly = Some this' \/
  inPlaceUnion glues this mpoly = Some this' \/
  inPlaceSubtraction glues this mpoly = Some this' ->
  capConsistent this'.
Proof.
  intros Hc [H | [H | H]].
  - unfold inPlaceIntersection in H.
    destruct (intersectsBoundingCap _ _ _ _); simpl in H; [|injection H as <-; exact Hc].
    destruct (tesselate glues WindingAbsGeqTwo (append this mpoly)) as [t|] eqn:T;
      simpl in H; [|discriminate].
    apply (updateVertexArray_capConsistent glues t this'); [|exact H].
    rewrite (tesselate_length _ _ _ _ T). reflexivity.
  - unfold inPlaceUnion in H.
    destruct (intersectsBoundingCap _ _ _ _).
    + destruct (tesselate glues WindingPositive (append this mpoly)) as [t|] eqn:T;
        simpl in H; [|discriminate].
      apply (updateVertexArray_capConsistent glues t this'); [|exact H].
      rewrite (tesselate_length _ _ _ _ T). reflexivity.
    + simpl in H.
      apply (updateVertexArray_capConsistent glues (append this mpoly) this'); [|exact H].
      reflexivity.
  - unfold inPlaceSubtraction in H.
    destruct (intersectsBoundingCap _ _ _ _); simpl in H; [|injection H as <-; exact Hc].
    destruct (tesselate glues WindingPositive (appendReversed this mpoly)) as [t|] eqn:T;
      simpl in H; [|discriminate].
    apply (updateVertexArray_capConsistent glues t this'); [|exact H].
    rewrite (tesselate_length _ _ _ _ T). reflexivity.
Qed.

Lemma inPlaceUnion_polyNone_polyEast :
  exists this', inPlaceUnion gluesSilent polyNone polyEast = Some this'.
Proof.
  unfold inPlaceUnion. destruct (intersectsBoundingCap _ _ _ _).
  - eexists. reflexivity.
  - unfold updateVertexArray, append, appendSides, polyNone, polyEast, gluesSilent.
    cbn [sides foldM seq updateOneSide nth isEmptyList repeat bind map app
         tesselateOneSideTriangles Triangles.result
         appendPositiveTriangles fst snd outlineOfContour firstOpt hd_error tl
         outlineLoop edgeFlag vertex orb].
    eexists. reflexivity.
Qed.

Lemma inPlace_operations_capConsistent_witness :
  exists this',
    inPlaceUnion gluesSilent polyNone polyEast = Some this' /\ capConsistent this'.
Proof.
  destruct inPlaceUnion_polyNone_polyEast as [this' H].
  exists this'. split; [exact H|].
  apply (inPlace_operations_capConsistent gluesSilent polyNone polyEast this').
  - split; reflexivity.
  - right. left. exact H.
Defined.

(** * Contents of the caches and thresholds of the pole completion *)

(** ** What updateVertexArray puts in the caches *)

Lemma foldM_each {A S : Type} (Q : A -> S -> Prop) (f : S -> A -> option S) (l : list A) :
  (forall s a s', f s a = Some s' -> Q a s') ->
  (forall a s b s', Q a s -> f s b = Some s' -> Q a s') ->
  forall s s', foldM f l s = Some s' -> forall a, In a l -> Q a s'.
Proof.
  intros Hnew Hkeep. induction l as [|b l IH]; intros s s' H a Ha; [destruct Ha|].
  simpl in H. destruct (f s b) as [s1|] eqn:E; simpl in H; [|discriminate].
  destruct Ha as [<- | Ha]; [|apply (IH s1 s' H a Ha)].
  apply (foldM_invariant (Q b) f l (Hkeep b) s1 s' (Hnew s b s1 E) H).
Qed.

(** What the loop over [c.at(j+1)] adds to the outline. *)
Lemma outlineLoop_added (sd : Vec3d) (rest : list EdgeVertex) :
  forall (pv : EdgeVertex) (outline : list Vec3d),
    exists added,
      snd (outlineLoop sd (mkEdgeVertex (unprojectOctahedron (vertex pv) sd) (edgeFlag pv))
                       rest outline) = outline ++ added /\
      (forall p, In p added ->
         exists v, In v (pv :: rest) /\ p = unprojectOctahedron (vertex v) sd) /\
      (forall v, In v rest -> edgeFlag v = true ->
         In (unprojectOctahedron (vertex v) sd) added).
Proof.
  induction rest as [|next rest IH]; intros pv outline.
  - exists []. simpl. rewrite app_nil_r. repeat split; intros; contradiction.
  - cbn [outlineLoop vertex edgeFlag].
    destruct (edgeFlag pv || edgeFlag next) eqn:E.
    + destruct (IH next (outline ++ [unprojectOctahedron (vertex pv) sd;
                                     unprojectOctahedron (vertex next) sd]))
        as (added & H1 & H2 & H3).
      exists ([unprojectOctahedron (vertex pv) sd; unprojectOctahedron (vertex next) sd]
              ++ added).
      rewrite H1, <- app_assoc. split; [reflexivity|]. split.
      * intros p Hp. apply in_app_or in Hp. destruct Hp as [[<- | [<- | []]] | Hp].
        -- exists pv. split; [left; reflexivity | reflexivity].
        -- exists next. split; [right; left; reflexivity | reflexivity].
        -- destruct (H2 p Hp) as (v & Hv & ->). exists v. split; [right; exact Hv | reflexivity].
      * intros v [<- | Hv] Hf.
        -- right. left. reflexivity.
        -- apply in_or_app. right. apply (H3 v Hv Hf).
    + destruct (IH next outline) as (added & H1 & H2 & H3).
      exists added. split; [exact H1|]. split.
      * intros p Hp. destruct (H2 p Hp) as (v & Hv & ->).
        exists v. split; [right; exact Hv | reflexivity].
      * intros v [<- | Hv] Hf.
        -- apply orb_false_iff in E. destruct E. congruence.
        -- apply (H3 v Hv Hf).
Qed.

Lemma outlineLoop_previous (sd : Vec3d) (rest : list EdgeVertex) :
  forall (pv : EdgeVertex) (outline : list Vec3d),
    exists w,
      In w (pv :: rest) /\
      vertex (fst (outlineLoop sd
                     (mkEdgeVertex (unprojectOctahedron (vertex pv) sd) (edgeFlag pv))
                     rest outline))
      = unprojectOctahedron (vertex w) sd.
Proof.
  induction rest as [|next rest IH]; intros pv outline.
  - exists pv. split; [left; reflexivity | reflexivity].
  - cbn [outlineLoop vertex edgeFlag].
    destruct (edgeFlag pv || edgeFlag next);
      match goal with
      | |- context [outlineLoop sd _ rest ?o] => destruct (IH next o) as (w & Hw & E)
      end;
      exists w; (split; [right; exact Hw | exact E]).
Qed.

(** What one contour adds to the outline: only unprojected vertices of the
    contour, and every vertex of the contour that has its edge flag. *)
Lemma outlineOfContour_added (sd : Vec3d) (outline outline' : list Vec3d) (c : SubContour) :
  outlineOfContour sd outline c = Some outline' ->
  exists added,
    outline' = outline ++ added /\
    (forall p, In p added -> exists v, In v c /\ p = unprojectOctahedron (vertex v) sd) /\
    (forall v, In v c -> edgeFlag v = true ->
       In (unprojectOctahedron (vertex v) sd) added).
Proof.
  unfold outlineOfContour. destruct c as [|first rest]; [discriminate|].
  cbn [firstOpt hd_error bind tl].
  destruct (outlineLoop_added sd rest first outline) as (added & H1 & H2 & H3).
  destruct (outlineLoop_previous sd rest first outline) as (pv & Hpv & Hprev).
  destruct (outlineLoop sd _ rest outline) as [previous out] eqn:L.
  cbn [fst snd] in H1, Hprev. subst out.
  destruct (edgeFlag previous || edgeFlag first) eqn:E; intros [= <-].
  - exists (added ++ [vertex previous; unprojectOctahedron (vertex first) sd]).
    rewrite app_assoc. split; [reflexivity|]. split.
    + intros p Hp. apply in_app_or in Hp. destruct Hp as [Hp | [<- | [<- | []]]].
      * apply (H2 p Hp).
      * exists pv. auto.
      * exists first. split; [left; reflexivity | reflexivity].
    + intros v [<- | Hv] Hf; apply in_or_app.
      * right. right. left. reflexivity.
      * left. apply (H3 v Hv Hf).
  - exists added. split; [reflexivity|]. split; [exact H2|].
    intros v [<- | Hv] Hf.
    + apply orb_false_iff in E. destruct E. congruence.
    + apply (H3 v Hv Hf).
Qed.

Lemma foldM_invariant_in {A S : Type} (P : S -> Prop) (f : S -> A -> option S)
    (l : list A) :
  (forall s a s', In a l -> P s -> f s a = Some s' -> P s') ->
  forall s s', P s -> foldM f l s = Some s' -> P s'.
Proof.
  induction l as [|a l IH]; intros Hf s s' Hs; simpl.
  - intros [= <-]. exact Hs.
  - destruct (f s a) as [s1|] eqn:E; simpl; [|discriminate].
    apply IH.
    + intros t b t' Hb. apply Hf. right. exact Hb.
    + apply (Hf s a s1 (or_introl eq_refl) Hs E).
Qed.

Lemma outlineOfContours_added (sd : Vec3d) (contours : list SubContour) :
  forall outline outline',
    foldM (outlineOfContour sd) contours outline = Some outline' ->
    exists added,
      outline' = outline ++ added /\
      (forall p, In p added ->
         exists c v, In c contours /\ In v c /\ p = unprojectOctahedron (vertex v) sd) /\
      (forall c v, In c contours -> In v c -> edgeFlag v = true ->
         In (unprojectOctahedron (vertex v) sd) added).
Proof.
  induction contours as [|c contours IH]; intros outline outline'; simpl.
  - intros [= <-]. exists []. rewrite app_nil_r. repeat split; intros; contradiction.
  - destruct (outlineOfContour sd outline c) as [o1|] eqn:E; simpl; [|discriminate].
    intros H. apply outlineOfContour_added in E. destruct E as (a1 & -> & A2 & A3).
    destruct (IH _ _ H) as (a2 & -> & B2 & B3).
    exists (a1 ++ a2). rewrite app_assoc. split; [reflexivity|]. split.
    + intros p Hp. apply in_app_or in Hp. destruct Hp as [Hp | Hp].
      * destruct (A2 p Hp) as (v & Hv & ->). exists c, v. auto.
      * destruct (B2 p Hp) as (c' & v & Hc & Hv & ->). exists c', v. auto.
    + intros c' v [<- | Hc] Hv Hf; apply in_or_app.
      * left. apply (A3 v Hv Hf).
      * right. apply (B3 c' v Hc Hv Hf).
Qed.

Lemma appendPositiveTriangles_added (sidenb : nat) (sd : Vec3d) (n : nat) :
  forall res fill,
    (List.length res <= n)%nat ->
    exists added,
      appendPositiveTriangles sidenb sd res fill = fill ++ added /\
      (forall p, In p added -> exists q, In q res /\ p = unprojectOctahedron q sd).
Proof.
  induction n as [|n IH]; intros res fill Hn.
  - destruct res; [|simpl in Hn; lia]. exists []. simpl. rewrite app_nil_r.
    split; [reflexivity | intros p []].
  - destruct res as [|a [|b [|c res]]];
      try (exists []; simpl; rewrite app_nil_r; split; [reflexivity | intros p []]).
    cbn [appendPositiveTriangles].
    assert (Hn' : (List.length res <= n)%nat) by (simpl in Hn; lia).
    destruct (if Nat.even sidenb then _ else _).
    + destruct (IH res (fill ++ [unprojectOctahedron a sd; unprojectOctahedron b sd;
                                 unprojectOctahedron c sd]) Hn') as (added & -> & H).
      exists ([unprojectOctahedron a sd; unprojectOctahedron b sd;
               unprojectOctahedron c sd] ++ added).
      rewrite <- app_assoc. split; [reflexivity|].
      intros p Hp. apply in_app_or in Hp.
      destruct Hp as [[<- | [<- | [<- | []]]] | Hp].
      * exists a. simpl. auto.
      * exists b. simpl. auto.
      * exists c. simpl. auto.
      * destruct (H p Hp) as (q & Hq & ->). exists q. simpl. auto.
    + destruct (IH res fill Hn') as (added & -> & H).
      exists added. split; [reflexivity|].
      intros p Hp. destruct (H p Hp) as (q & Hq & ->). exists q. simpl. auto.
Qed.

Section CacheContents.

Variable glues : bool -> TessWindingRule -> R -> list (list Vec3d) -> list TessEvent.
Variable faces : list (list SubContour).

Local Abbreviation fromContour := (fromContour faces).
Local Abbreviation fromTriangle := (fromTriangle glues faces).
Local Abbreviation flaggedIn := (flaggedIn faces).

Lemma updateOneSide_added (caches caches' : list Vec3d * list Vec3d) (i : nat) :
  updateOneSide glues faces caches i = Some caches' ->
  exists addedF addedO,
    fst caches' = fst caches ++ addedF /\ snd caches' = snd caches ++ addedO /\
    (forall p, In p addedF ->
       exists res q, tesselateOneSideTriangles glues faces i = Some res /\ In q res /\
                     p = unprojectOctahedron q (sideDirection i)) /\
    (forall p, In p addedO ->
       exists c v, In c (nth i faces []) /\ In v c /\
                   p = unprojectOctahedron (vertex v) (sideDirection i)) /\
    (forall c v, In c (nth i faces []) -> In v c -> edgeFlag v = true ->
       In (unprojectOctahedron (vertex v) (sideDirection i)) addedO).
Proof.
  unfold updateOneSide. destruct (nth i faces []) as [|c0 cs] eqn:N; cbn [isEmptyList].
  - intros [= <-]. exists [], []. rewrite !app_nil_r.
    repeat split; intros; contradiction.
  - destruct (tesselateOneSideTriangles glues faces i) as [res|]; cbn [bind];
      [|discriminate].
    destruct (foldM (outlineOfContour (sideDirection i)) (c0 :: cs) (snd caches))
      as [o|] eqn:F; cbn [bind]; [|discriminate].
    intros [= <-]. cbn [fst snd].
    destruct (appendPositiveTriangles_added i (sideDirection i) (List.length res) res
                (fst caches) (le_n _)) as (addedF & -> & HF).
    destruct (outlineOfContours_added _ _ _ _ F) as (addedO & -> & HO1 & HO2).
    exists addedF, addedO. repeat split; auto.
    intros p Hp. destruct (HF p Hp) as (q & Hq & ->). exists res, q. auto.
Qed.

Lemma updateSides_contents (caches : list Vec3d * list Vec3d) :
  foldM (updateOneSide glues faces) (seq 0 8) ([], []) = Some caches ->
  (forall p, In p (fst caches) -> fromTriangle p) /\
  (forall p, In p (snd caches) -> fromContour p) /\
  (forall i, (i < 8)%nat -> flaggedIn i caches).
Proof.
  intros F. split; [|split].
  - apply (foldM_invariant_in (fun cs => forall p, In p (fst cs) -> fromTriangle p)
             (updateOneSide glues faces) (seq 0 8)) with (s := ([], [])) (3 := F).
    + intros s i s' Hi Hs E. apply in_seq in Hi.
      destruct (updateOneSide_added s s' i E) as (aF & aO & -> & _ & HF & _).
      intros p Hp. apply in_app_or in Hp. destruct Hp as [Hp | Hp]; [auto|].
      destruct (HF p Hp) as (res & q & H1 & H2 & H3). exists i, res, q.
      repeat split; auto; lia.
    + intros p [].
  - apply (foldM_invariant_in (fun cs => forall p, In p (snd cs) -> fromContour p)
             (updateOneSide glues faces) (seq 0 8)) with (s := ([], [])) (3 := F).
    + intros s i s' Hi Hs E. apply in_seq in Hi.
      destruct (updateOneSide_added s s' i E) as (aF & aO & _ & -> & _ & HO & _).
      intros p Hp. apply in_app_or in Hp. destruct Hp as [Hp | Hp]; [auto|].
      destruct (HO p Hp) as (c & v & H1 & H2 & H3). exists i, c, v.
      repeat split; auto; lia.
    + intros p [].
  - intros i Hi.
    apply (foldM_each flaggedIn (updateOneSide glues faces) (seq 0 8)) with (s := ([], []));
      [| |exact F|apply in_seq; lia].
    + intros s a s' E c v Hc Hv Hf.
      destruct (updateOneSide_added s s' a E) as (aF & aO & _ & -> & _ & _ & HO).
      apply in_or_app. right. apply (HO c v Hc Hv Hf).
    + intros a s b s' Hq E c v Hc Hv Hf.
      destruct (updateOneSide_added s s' b E) as (aF & aO & _ & -> & _).
      apply in_or_app. left. apply (Hq c v Hc Hv Hf).
Qed.

End CacheContents.


Lemma inPlaceUnion_polyEast_polyWest :
  exists this', inPlaceUnion gluesSilent polyEast polyWest = Some this'.
Proof.
  unfold inPlaceUnion. rewrite polyEast_polyWest_disjoint.
  unfold updateVertexArray, append, appendSides, polyEast, polyWest, gluesSilent.
  cbn [sides foldM seq updateOneSide nth isEmptyList repeat bind map app
       tesselateOneSideTriangles Triangles.result
       appendPositiveTriangles fst snd outlineOfContour firstOpt hd_error tl
       outlineLoop edgeFlag vertex orb].
  eexists. reflexivity.
Qed.


(** ** The two thresholds of the pole completion *)

Lemma splitQuadrant_single gci (tmpSubContour completed : SubContour) :
  completeWithPole tmpSubContour = Some completed ->
  splitQuadrant gci [tmpSubContour] = splitContourByPlan gci 2 completed ([], []).
Proof.
  intros H. unfold splitQuadrant, splitAll. cbn [mapM]. rewrite H. cbn [bind foldM].
  destruct (splitContourByPlan gci 2 completed ([], [])); reflexivity.
Qed.


Lemma contourNearPlane_cross :
  - 0.0000001
  <= vget (cross (mkVec3d (- (2 * 0.00000002) / (1 + 0.00000002 * 0.00000002))
                          ((1 - 0.00000002 * 0.00000002) / (1 + 0.00000002 * 0.00000002))
                          0)
                 (mkVec3d 0 1 0)) 2
  < - 0.00000001.
Proof. unfold vget, cross; simpl. lra. Qed.


(** The sub-contour above is what the split on the plane X=0 leaves in the
    quadrant x <= 0, y >= 0 for the closed contour [contourBesidePlane],
    which the split on Y=0 returns whole, when the intersection fails on its
    two close vertices and meets the plane at (0,1,0) on its last edge. *)
Lemma contourNearPlane_reached gci :
  snd (gci (mkVec3d ((2 * 0.00000001) / (1 + 0.00000001 * 0.00000001))
                    ((1 - 0.00000001 * 0.00000001) / (1 + 0.00000001 * 0.00000001)) 0)
           (mkVec3d (- (2 * 0.00000002) / (1 + 0.00000002 * 0.00000002))
                    ((1 - 0.00000002 * 0.00000002) / (1 + 0.00000002 * 0.00000002)) 0)
           (planOf 0)) = false ->
  gci (mkVec3d (-0.6) 0.8 0)
      (mkVec3d ((2 * 0.00000001) / (1 + 0.00000001 * 0.00000001))
               ((1 - 0.00000001 * 0.00000001) / (1 + 0.00000001 * 0.00000001)) 0)
      (planOf 0) = (mkVec3d 0 1 0, true) ->
  Forall (fun v => isUnit (vertex v)) contourBesidePlane /\
  splitContourByPlan gci 1 contourBesidePlane ([], []) = Some ([contourBesidePlane], []) /\
  exists kept,
    splitContourByPlan gci 0 contourBesidePlane ([], []) = Some ([kept], [contourNearPlane]).
Proof.
  intros Hfail Hcut. split; [|split].
  - unfold contourBesidePlane, isUnit, lengthSquared, dot.
    repeat constructor; simpl; field_simplify_eq; lra.
  - unfold contourBesidePlane. eval_split. reflexivity.
  - unfold contourBesidePlane, contourNearPlane. eval_split.
    match type of Hfail with snd ?g = _ => destruct g as [t ok] eqn:G end.
    simpl in Hfail. subst ok. eval_split. rewrite Hcut. eval_split.
    eexists. reflexivity.
Qed.
